(** * The grid game of [src/index.js]: host state, run loop and timers

    [index.js] wires a block editor to a sandboxed interpreter and keeps a
    small piece of host state: a position on a 3x3 grid, an error flag, the
    interpreter handle [myInterpreter] and the timer id [runnerPid].  This
    file embeds that script as functions over an explicit [World] and proves
    properties of the host functions and of the run loop.

    Modelling conventions.
    - Every module-level [let]/[const] of the script and every DOM property
      it writes is a field of [World].
    - A function of the script is a computation [Host A]: it takes the world
      and either returns normally or throws, in both cases with the world as
      mutated so far (JavaScript keeps the side effects of a call that
      throws).
    - [setTimeout]/[clearTimeout] act on an explicit list of pending timers;
      the browser's event loop is [dispatch].  Timers fire in the order of
      their due times, the older first among equals; a click is a task of
      its own and may come between any two timer tasks.
    - The third-party interpreter (js-interpreter) is not part of the
      repository.  A sandboxed program can reach the host only through the
      three functions installed by [initApi], so a program is represented by
      the sequence of host calls its execution performs ([HostCall]); the
      interpreter object keeps the calls still to be made and its [paused_]
      flag.  Programs that fault or never finish are outside the model.
    - [goalChecks] is a ghost field: it counts the calls of
      [checkGoalReached], which leave no other mark when the error flag is
      set.
    - [index.html] is not among the sources: the elements the script looks
      up ([.grid], [#runButton], [#resetButton], the two images and the
      [outputArea] text area) are taken to exist, and [#runButton] to be a
      button, which dispatches no click while it is disabled. *)

From Stdlib Require Import ZArith String Ascii List Bool Lia.
From Stdlib Require Import DecimalString DecimalZ DecimalPos.
From stdpp Require Import base list.
Import ListNotations.

Local Open Scope Z_scope.

(** ** Data *)

(** [{ x, y }]: a cell of the grid, row [x] and column [y]. *)
Record Position := { x : Z; y : Z }.

Definition START_STATE : Position := {| x := 0; y := 0 |}.
Definition GOAL_STATE : Position := {| x := 0; y := 2 |}.

Definition ROWS : Z := 3.
Definition COLS : Z := 3.

(** The host functions a sandboxed program can call (the table built by
    [initApi]).  [CallAlert None] is [alert()] without argument; the text of
    [CallAlert (Some s)] is the argument as JavaScript's [+] renders it.
    The argument of a wait is a whole number of seconds: a program that
    waits a fraction of a second is outside the model. *)
Inductive HostCall :=
| CallMoveForward
| CallAlert (text : option string)
| CallWaitForSeconds (timeInSeconds : Z).

(** An interpreter object: the host calls the program has still to make and
    the library's [paused_] flag. *)
Record Interpreter := { program : list HostCall; paused_ : bool }.

(** The three functions the script hands to [setTimeout]. *)
Inductive Callback :=
| BeginExecution (latestCode : list HostCall)  (* the anonymous function of runCode *)
| Runner                                       (* runner *)
| AsyncDone (interpreter : nat).               (* the callback of an async call *)

Record Timer := { timer_id : nat; timer_due : Z; timer_cb : Callback }.

Inductive Image := bluedogImage | busImage.

Record World := {
  (* module-level variables *)
  current_state : Position;
  inErrorState : bool;
  myInterpreter : option nat;        (* reference to an interpreter object *)
  runnerPid : nat;
  (* objects and the event loop *)
  heap : list Interpreter;           (* every interpreter object ever built *)
  timers : list Timer;               (* pending timeouts, oldest first *)
  nextTimerId : nat;
  now : Z;                           (* milliseconds *)
  (* the page *)
  runButton_disabled : bool;
  grid_error : bool;                 (* grid.classList contains "error" *)
  bluedogImage_cell : option Position;
  busImage_cell : option Position;
  outputArea_value : string;
  alerts : list string;              (* texts shown by window.alert *)
  (* ghost: number of calls of checkGoalReached; nothing reads it *)
  goalChecks : nat
}.

(** *** Field updates *)

Definition with_current_state (v : Position) (w : World) : World :=
  {| current_state := v; inErrorState := inErrorState w;
     myInterpreter := myInterpreter w; runnerPid := runnerPid w;
     heap := heap w; timers := timers w; nextTimerId := nextTimerId w;
     now := now w; runButton_disabled := runButton_disabled w;
     grid_error := grid_error w; bluedogImage_cell := bluedogImage_cell w;
     busImage_cell := busImage_cell w; outputArea_value := outputArea_value w;
     alerts := alerts w; goalChecks := goalChecks w |}.

Definition with_inErrorState (v : bool) (w : World) : World :=
  {| current_state := current_state w; inErrorState := v;
     myInterpreter := myInterpreter w; runnerPid := runnerPid w;
     heap := heap w; timers := timers w; nextTimerId := nextTimerId w;
     now := now w; runButton_disabled := runButton_disabled w;
     grid_error := grid_error w; bluedogImage_cell := bluedogImage_cell w;
     busImage_cell := busImage_cell w; outputArea_value := outputArea_value w;
     alerts := alerts w; goalChecks := goalChecks w |}.

Definition with_myInterpreter (v : option nat) (w : World) : World :=
  {| current_state := current_state w; inErrorState := inErrorState w;
     myInterpreter := v; runnerPid := runnerPid w;
     heap := heap w; timers := timers w; nextTimerId := nextTimerId w;
     now := now w; runButton_disabled := runButton_disabled w;
     grid_error := grid_error w; bluedogImage_cell := bluedogImage_cell w;
     busImage_cell := busImage_cell w; outputArea_value := outputArea_value w;
     alerts := alerts w; goalChecks := goalChecks w |}.

Definition with_runnerPid (v : nat) (w : World) : World :=
  {| current_state := current_state w; inErrorState := inErrorState w;
     myInterpreter := myInterpreter w; runnerPid := v;
     heap := heap w; timers := timers w; nextTimerId := nextTimerId w;
     now := now w; runButton_disabled := runButton_disabled w;
     grid_error := grid_error w; bluedogImage_cell := bluedogImage_cell w;
     busImage_cell := busImage_cell w; outputArea_value := outputArea_value w;
     alerts := alerts w; goalChecks := goalChecks w |}.

Definition with_heap (v : list Interpreter) (w : World) : World :=
  {| current_state := current_state w; inErrorState := inErrorState w;
     myInterpreter := myInterpreter w; runnerPid := runnerPid w;
     heap := v; timers := timers w; nextTimerId := nextTimerId w;
     now := now w; runButton_disabled := runButton_disabled w;
     grid_error := grid_error w; bluedogImage_cell := bluedogImage_cell w;
     busImage_cell := busImage_cell w; outputArea_value := outputArea_value w;
     alerts := alerts w; goalChecks := goalChecks w |}.

Definition with_timers (v : list Timer) (w : World) : World :=
  {| current_state := current_state w; inErrorState := inErrorState w;
     myInterpreter := myInterpreter w; runnerPid := runnerPid w;
     heap := heap w; timers := v; nextTimerId := nextTimerId w;
     now := now w; runButton_disabled := runButton_disabled w;
     grid_error := grid_error w; bluedogImage_cell := bluedogImage_cell w;
     busImage_cell := busImage_cell w; outputArea_value := outputArea_value w;
     alerts := alerts w; goalChecks := goalChecks w |}.

Definition with_nextTimerId (v : nat) (w : World) : World :=
  {| current_state := current_state w; inErrorState := inErrorState w;
     myInterpreter := myInterpreter w; runnerPid := runnerPid w;
     heap := heap w; timers := timers w; nextTimerId := v;
     now := now w; runButton_disabled := runButton_disabled w;
     grid_error := grid_error w; bluedogImage_cell := bluedogImage_cell w;
     busImage_cell := busImage_cell w; outputArea_value := outputArea_value w;
     alerts := alerts w; goalChecks := goalChecks w |}.

Definition with_now (v : Z) (w : World) : World :=
  {| current_state := current_state w; inErrorState := inErrorState w;
     myInterpreter := myInterpreter w; runnerPid := runnerPid w;
     heap := heap w; timers := timers w; nextTimerId := nextTimerId w;
     now := v; runButton_disabled := runButton_disabled w;
     grid_error := grid_error w; bluedogImage_cell := bluedogImage_cell w;
     busImage_cell := busImage_cell w; outputArea_value := outputArea_value w;
     alerts := alerts w; goalChecks := goalChecks w |}.

Definition with_runButton_disabled (v : bool) (w : World) : World :=
  {| current_state := current_state w; inErrorState := inErrorState w;
     myInterpreter := myInterpreter w; runnerPid := runnerPid w;
     heap := heap w; timers := timers w; nextTimerId := nextTimerId w;
     now := now w; runButton_disabled := v;
     grid_error := grid_error w; bluedogImage_cell := bluedogImage_cell w;
     busImage_cell := busImage_cell w; outputArea_value := outputArea_value w;
     alerts := alerts w; goalChecks := goalChecks w |}.

Definition with_grid_error (v : bool) (w : World) : World :=
  {| current_state := current_state w; inErrorState := inErrorState w;
     myInterpreter := myInterpreter w; runnerPid := runnerPid w;
     heap := heap w; timers := timers w; nextTimerId := nextTimerId w;
     now := now w; runButton_disabled := runButton_disabled w;
     grid_error := v; bluedogImage_cell := bluedogImage_cell w;
     busImage_cell := busImage_cell w; outputArea_value := outputArea_value w;
     alerts := alerts w; goalChecks := goalChecks w |}.

Definition with_image_cell (img : Image) (v : Position) (w : World) : World :=
  {| current_state := current_state w; inErrorState := inErrorState w;
     myInterpreter := myInterpreter w; runnerPid := runnerPid w;
     heap := heap w; timers := timers w; nextTimerId := nextTimerId w;
     now := now w; runButton_disabled := runButton_disabled w;
     grid_error := grid_error w;
     bluedogImage_cell :=
       match img with bluedogImage => Some v | busImage => bluedogImage_cell w end;
     busImage_cell :=
       match img with busImage => Some v | bluedogImage => busImage_cell w end;
     outputArea_value := outputArea_value w;
     alerts := alerts w; goalChecks := goalChecks w |}.

Definition with_outputArea_value (v : string) (w : World) : World :=
  {| current_state := current_state w; inErrorState := inErrorState w;
     myInterpreter := myInterpreter w; runnerPid := runnerPid w;
     heap := heap w; timers := timers w; nextTimerId := nextTimerId w;
     now := now w; runButton_disabled := runButton_disabled w;
     grid_error := grid_error w; bluedogImage_cell := bluedogImage_cell w;
     busImage_cell := busImage_cell w; outputArea_value := v;
     alerts := alerts w; goalChecks := goalChecks w |}.

Definition with_alerts (v : list string) (w : World) : World :=
  {| current_state := current_state w; inErrorState := inErrorState w;
     myInterpreter := myInterpreter w; runnerPid := runnerPid w;
     heap := heap w; timers := timers w; nextTimerId := nextTimerId w;
     now := now w; runButton_disabled := runButton_disabled w;
     grid_error := grid_error w; bluedogImage_cell := bluedogImage_cell w;
     busImage_cell := busImage_cell w; outputArea_value := outputArea_value w;
     alerts := v; goalChecks := goalChecks w |}.

Definition with_goalChecks (v : nat) (w : World) : World :=
  {| current_state := current_state w; inErrorState := inErrorState w;
     myInterpreter := myInterpreter w; runnerPid := runnerPid w;
     heap := heap w; timers := timers w; nextTimerId := nextTimerId w;
     now := now w; runButton_disabled := runButton_disabled w;
     grid_error := grid_error w; bluedogImage_cell := bluedogImage_cell w;
     busImage_cell := busImage_cell w; outputArea_value := outputArea_value w;
     alerts := alerts w; goalChecks := v |}.

(** ** Computations that may throw *)

Inductive Outcome (A : Type) :=
| Normal (a : A) (w : World)
| Throw (err : string) (w : World).
Arguments Normal {A} a w.
Arguments Throw {A} err w.

Definition Host (A : Type) := World -> Outcome A.

Definition ret {A} (a : A) : Host A := fun w => Normal a w.

Definition bind {A B} (m : Host A) (k : A -> Host B) : Host B :=
  fun w => match m w with
           | Normal a w' => k a w'
           | Throw e w' => Throw e w'
           end.

Definition throw {A} (err : string) : Host A := fun w => Throw err w.
Definition get {A} (f : World -> A) : Host A := fun w => Normal (f w) w.
Definition modify (f : World -> World) : Host unit := fun w => Normal tt (f w).

Notation "v <- m ;; k" := (bind m (fun v => k))
  (at level 100, m at next level, k at level 200, right associativity).
Notation "m ;; k" := (bind m (fun _ => k))
  (at level 100, k at level 200, right associativity).

(** The world a call leaves behind, whether it returned or threw. *)
Definition world_of {A} (o : Outcome A) : World :=
  match o with Normal _ w => w | Throw _ w => w end.

(** Whether a call returned. *)
Definition returns {A} (o : Outcome A) : bool :=
  match o with Normal _ _ => true | Throw _ _ => false end.

(** ** The browser *)

(** [window.alert(text)]: the text is shown to the learner. *)
Definition window_alert (text : string) : Host unit :=
  modify (fun w => with_alerts (alerts w ++ [text]) w).

(** [setTimeout(cb, delay)]: a fresh positive id; a negative delay counts as
    zero.  The delay is taken as the number it is, which is what the host
    does with a delay inside its 32-bit range ([host_delay] below); the
    script's own delays are 1 and 10, and a statement about the time of a
    wait is made for waits in that range. *)
Definition setTimeout (cb : Callback) (delay : Z) : Host nat :=
  fun w =>
    let id := nextTimerId w in
    let t := {| timer_id := id; timer_due := now w + Z.max 0 delay;
                timer_cb := cb |} in
    Normal id (with_timers (timers w ++ [t]) (with_nextTimerId (S id) w)).

(** The pending timers without those of a given id. *)
Fixpoint remove_timer (id : nat) (ts : list Timer) : list Timer :=
  match ts with
  | [] => []
  | t :: rest =>
      if Nat.eqb (timer_id t) id then remove_timer id rest
      else t :: remove_timer id rest
  end.

(** [clearTimeout(id)]: no effect when no pending timer has that id. *)
Definition clearTimeout (id : nat) : Host unit :=
  modify (fun w => with_timers (remove_timer id (timers w)) w).

(** The pending timer that fires next: the one due first, the oldest among
    those due at the same time. *)
Fixpoint next_timer (ts : list Timer) : option Timer :=
  match ts with
  | [] => None
  | t :: rest =>
      match next_timer rest with
      | Some u => if timer_due u <? timer_due t then Some u else Some t
      | None => Some t
      end
  end.

(** [drawGrid] creates the cells [cell<i>_<j>] for [i < ROWS], [j < COLS];
    [document.getElementById] finds no other cell. *)
Definition cell_exists (p : Position) : bool :=
  (0 <=? x p) && (x p <? ROWS) && (0 <=? y p) && (y p <? COLS).

(** ** The script *)

(** [moveImage(state, imgElement)]: centres the image on the cell of
    [state].  The pixel arithmetic is abstracted to the cell the image ends
    on; for a position without a cell [getElementById] yields [null] and
    [cell.getBoundingClientRect()] throws. *)
Definition moveImage (state : Position) (imgElement : Image) : Host unit :=
  if cell_exists state then modify (with_image_cell imgElement state)
  else throw "TypeError: cell is null".

(** [resetStepUi]: clears the timer whose id is in [runnerPid], enables the
    Run button and drops the handle. *)
Definition resetStepUi : Host unit :=
  pid <- get runnerPid ;;
  clearTimeout pid ;;
  modify (with_runButton_disabled false) ;;
  modify (with_myInterpreter None).

(** [resetState]: the listener of the Reset button, also called at load and
    by [runCode]. *)
Definition resetState : Host unit :=
  modify (with_current_state START_STATE) ;;
  moveImage START_STATE bluedogImage ;;
  moveImage GOAL_STATE busImage ;;
  resetStepUi ;;
  modify (with_inErrorState false) ;;
  modify (with_grid_error false).

Definition msg_too_far : string :=
  "uh oh! You have gone too far! Please try again.".
Definition msg_goal : string := "You have reached the goal!".
Definition msg_no_goal : string :=
  "You have not reached the goal. Please try again.".

(** [moveForward]: [current_state.y++] inside the grid, the error state at
    its edge, nothing at all once in the error state. *)
Definition moveForward : Host unit :=
  err <- get inErrorState ;;
  if err : bool then ret tt
  else
    cur <- get current_state ;;
    if y cur <? COLS - 1 then
      modify (with_current_state {| x := x cur; y := y cur + 1 |}) ;;
      cur' <- get current_state ;;
      moveImage cur' bluedogImage
    else
      modify (with_inErrorState true) ;;
      modify (with_grid_error true) ;;
      window_alert msg_too_far.

(** [checkGoalReached]; its first line here counts the call in the ghost
    field. *)
Definition checkGoalReached : Host unit :=
  modify (fun w => with_goalChecks (S (goalChecks w)) w) ;;
  err <- get inErrorState ;;
  if err : bool then ret tt
  else
    cur <- get current_state ;;
    if (x cur =? x GOAL_STATE) && (y cur =? y GOAL_STATE)
    then window_alert msg_goal
    else window_alert msg_no_goal.

(** *** The functions [initApi] installs in the sandbox *)

(** [moveForwardWrapper]: [return moveForward()]. *)
Definition moveForwardWrapper : Host unit := moveForward.

Definition newline : string := String (Ascii.ascii_of_nat 10) EmptyString.

(** [wrapperAlert]: [outputArea.value += "\n" + text], with the empty text
    for a call without argument.  The script declares no [outputArea]: the
    name reaches the page's element of that id, taken to be a text area.
    The field holds the value as it is set; the area gives a value back
    with its carriage returns turned into line feeds, so what is read back
    is what was set for strings without carriage return
    ([kept_by_text_area] below), and a statement about the output of
    several calls is made for such strings. *)
Definition wrapperAlert (text : option string) : Host unit :=
  let text := match text with Some s => s | None => EmptyString end in
  modify (fun w =>
            with_outputArea_value
              (String.append (outputArea_value w) (String.append newline text)) w).

(** The interpreter writes its own state. *)
Definition set_interpreter (i : nat) (it : Interpreter) : Host unit :=
  modify (fun w => with_heap (<[i := it]> (heap w)) w).

(** The callback the interpreter passes to an asynchronous function:
    [thisInterpreter.paused_ = false]. *)
Definition asyncDone (i : nat) : Host unit :=
  modify (fun w =>
            match heap w !! i with
            | Some it =>
                with_heap
                  (<[i := {| program := program it; paused_ := false |}]> (heap w)) w
            | None => w
            end).

(** The function given to [createAsyncFunction] in
    [initInterpreterWaitForSeconds]: [setTimeout(callback, timeInSeconds * 1000)]. *)
Definition waitForSeconds (self : nat) (timeInSeconds : Z) : Host unit :=
  _ <- setTimeout (AsyncDone self) (timeInSeconds * 1000) ;;
  ret tt.

(** ** The interpreter *)

(** [new Interpreter(latestCode, initApi)] *)
Definition new_Interpreter (latestCode : list HostCall) : Host nat :=
  fun w =>
    Normal (length (heap w))
      (with_heap (heap w ++ [{| program := latestCode; paused_ := false |}]) w).

(** The loop of [Interpreter.run]: make the program's calls in order.  A
    native function runs to its end inside the call, and an exception it
    throws leaves the loop; an asynchronous one sets [paused_], is handed
    the callback, and stops the loop.  The result is [paused_]. *)
Fixpoint Interpreter_steps (self : nat) (code : list HostCall) : Host bool :=
  match code with
  | [] => ret false
  | CallMoveForward :: rest =>
      set_interpreter self {| program := rest; paused_ := false |} ;;
      moveForwardWrapper ;;
      Interpreter_steps self rest
  | CallAlert text :: rest =>
      set_interpreter self {| program := rest; paused_ := false |} ;;
      wrapperAlert text ;;
      Interpreter_steps self rest
  | CallWaitForSeconds timeInSeconds :: rest =>
      set_interpreter self {| program := rest; paused_ := true |} ;;
      waitForSeconds self timeInSeconds ;;
      ret true
  end.

(** [interpreter.run()]: [true] when execution is blocked by an asynchronous
    call, [false] when the program is complete. *)
Definition Interpreter_run (self : nat) : Host bool :=
  h <- get heap ;;
  match h !! self with
  | Some it =>
      if paused_ it then ret true else Interpreter_steps self (program it)
  | None => throw "TypeError: no such interpreter"
  end.

(** ** The run loop *)

(** [runner]: one slice of the handle's program, then either the same
    again in 10 ms or the goal check. *)
Definition runner : Host unit :=
  h <- get myInterpreter ;;
  match h with
  | Some i =>
      hasMore <- Interpreter_run i ;;
      if hasMore : bool then
        pid <- setTimeout Runner 10 ;;
        modify (with_runnerPid pid)
      else checkGoalReached
  | None => ret tt
  end.

(** The function [runCode] passes to [setTimeout(..., 1)]. *)
Definition beginExecution (latestCode : list HostCall) : Host unit :=
  i <- new_Interpreter latestCode ;;
  modify (with_myInterpreter (Some i)) ;;
  runner.

(** [runCode]; [latestCode] is what [workspaceToCode(ws)] generates from the
    blocks on the workspace at the time of the call. *)
Definition runCode (latestCode : list HostCall) : Host unit :=
  resetState ;;
  h <- get myInterpreter ;;
  match h with
  | None =>
      resetStepUi ;;
      modify (with_runButton_disabled true) ;;
      _ <- setTimeout (BeginExecution latestCode) 1 ;;
      ret tt
  | Some _ => ret tt
  end.

(** Calling a timer's callback. *)
Definition invoke (cb : Callback) : Host unit :=
  match cb with
  | BeginExecution latestCode => beginExecution latestCode
  | Runner => runner
  | AsyncDone i => asyncDone i
  end.

(** ** The event loop *)

(** What the event loop has to deliver: a click on Run (with the code the
    workspace generates at that moment), a click on Reset, the next timer,
    or nothing for a while. *)
Inductive Event :=
| ClickRun (latestCode : list HostCall)
| ClickReset
| TimerFires
| TimePasses (dt : Z).

(** One task of the event loop.  An exception that escapes a listener or a
    timer callback ends the task and leaves the world as mutated. *)
Definition dispatch (w : World) (e : Event) : World :=
  match e with
  | ClickRun latestCode =>
      if runButton_disabled w then w else world_of (runCode latestCode w)
  | ClickReset => world_of (resetState w)
  | TimerFires =>
      match next_timer (timers w) with
      | Some t =>
          world_of
            (invoke (timer_cb t)
               (with_now (Z.max (now w) (timer_due t))
                  (with_timers (remove_timer (timer_id t) (timers w)) w)))
      | None => w
      end
  | TimePasses dt => with_now (now w + Z.max 0 dt) w
  end.

(** A sequence of tasks. *)
Definition run_events (w : World) (es : list Event) : World :=
  fold_left dispatch es w.

(** Let every pending timer fire, for at most [fuel] tasks. *)
Fixpoint settle (fuel : nat) (w : World) : option World :=
  match timers w with
  | [] => Some w
  | _ :: _ =>
      match fuel with
      | O => None
      | S fuel' => settle fuel' (dispatch w TimerFires)
      end
  end.

(** The world when the module has been evaluated: the declared initial
    values, then [initImages(); initButtons(); drawGrid(); resetState()]. *)
Definition declared_world : World :=
  {| current_state := START_STATE; inErrorState := false;
     myInterpreter := None; runnerPid := 0%nat;
     heap := []; timers := []; nextTimerId := 1%nat; now := 0;
     runButton_disabled := false; grid_error := false;
     bluedogImage_cell := None; busImage_cell := None;
     outputArea_value := EmptyString; alerts := []; goalChecks := 0%nat |}.

Definition initial_world : World := world_of (resetState declared_world).

(** The worlds the page can be in. *)
Inductive reachable : World -> Prop :=
| reachable_initial : reachable initial_world
| reachable_dispatch w e : reachable w -> reachable (dispatch w e).

(** * Notions used in the statements *)

(** ** Programs and worlds of the scenarios *)

(** The program of [k] "Move Forward" blocks. *)
Definition moves (k : nat) : list HostCall := repeat CallMoveForward k.

(** Number of [moveForward] calls a program makes. *)
Fixpoint count_moves (code : list HostCall) : Z :=
  match code with
  | [] => 0
  | CallMoveForward :: rest => 1 + count_moves rest
  | _ :: rest => count_moves rest
  end.

Definition move_wait_move : list HostCall :=
  [CallMoveForward; CallWaitForSeconds 1; CallMoveForward;
   CallAlert (Some "done"%string)].

(** The programs of two runs requested one after the other. *)
Definition program_A : list HostCall := [CallMoveForward].

Definition program_B : list HostCall :=
  [CallMoveForward; CallAlert (Some "B"%string)].

Definition two_waits : list HostCall :=
  [CallMoveForward; CallWaitForSeconds 2; CallMoveForward].

(** A run under way: one move made, the program blocked in a wait. *)
Definition blocked_world : World :=
  run_events initial_world
    [ClickRun [CallMoveForward; CallWaitForSeconds 1; CallMoveForward];
     TimerFires].

(** The initial world with the character moved to the second column. *)
Definition second_column_world : World :=
  with_current_state {| x := 0; y := 1 |} initial_world.


(** A run that overshot, and a run that reached the goal. *)
Definition overshoot_world : World :=
  run_events initial_world [ClickRun (moves 3); TimerFires].

Definition completed_world : World :=
  run_events initial_world [ClickRun (moves 2); TimerFires].

(** ** Predicates on worlds and computations *)

(** The position is a cell of the grid. *)
Definition on_grid (w : World) : Prop := cell_exists (current_state w) = true.

Definition y_in_grid (w : World) : Prop :=
  0 <= y (current_state w) <= COLS - 1.

(** In a run the error flag is only ever set at the last column. *)
Definition flag_at_edge (w : World) : Prop :=
  inErrorState w = true -> y (current_state w) = COLS - 1.

(** A property of the world that a computation keeps, whether it returns or
    throws. *)
Definition preserves {A} (P : World -> Prop) (m : Host A) : Prop :=
  forall w, P w -> P (world_of (m w)).

(** The timer id kept in [runnerPid] is one that has been handed out. *)
Definition pid_fresh (w : World) : Prop := (runnerPid w < nextTimerId w)%nat.

(** The program an interpreter object has still to run, if the object
    exists. *)
Definition program_at (j : nat) (w : World) : option (list HostCall) :=
  option_map program (heap w !! j).

(** The callback that starts a run. *)
Definition is_begin (cb : Callback) : bool :=
  match cb with BeginExecution _ => true | _ => false end.

(** ** The worlds the script's functions leave *)

(** The world [resetState] leaves. *)
Definition reset_world (w : World) : World :=
  with_grid_error false
    (with_inErrorState false
       (with_myInterpreter None
          (with_runButton_disabled false
             (with_timers (remove_timer (runnerPid w) (timers w))
                (with_image_cell busImage GOAL_STATE
                   (with_image_cell bluedogImage START_STATE
                      (with_current_state START_STATE w))))))).

(** The timer [runCode] sets; its id is not kept. *)
Definition begin_timer (code : list HostCall) (w : World) : Timer :=
  {| timer_id := nextTimerId w; timer_due := now w + 1;
     timer_cb := BeginExecution code |}.

(** The world [runCode] leaves. *)
Definition run_requested (code : list HostCall) (w : World) : World :=
  let w0 := reset_world w in
  with_timers (remove_timer (runnerPid w) (timers w0) ++ [begin_timer code w])
    (with_nextTimerId (S (nextTimerId w))
       (with_runButton_disabled true w0)).

(** The world in which the task of [begin_timer] calls [beginExecution],
    when no other timer was pending at the request. *)
Definition begin_world (code : list HostCall) (w : World) : World :=
  with_now (Z.max (now w) (now w + 1)) (with_timers [] (run_requested code w)).

(** The message [checkGoalReached] shows, if any. *)
Definition goal_messages (w : World) : list string :=
  if inErrorState w then []
  else if (x (current_state w) =? x GOAL_STATE)
          && (y (current_state w) =? y GOAL_STATE)
       then [msg_goal] else [msg_no_goal].

Definition goal_checked (w : World) : World :=
  with_alerts (alerts w ++ goal_messages w)
    (with_goalChecks (S (goalChecks w)) w).

(** The timer [runner] sets for itself. *)
Definition runner_timer (w : World) : Timer :=
  {| timer_id := nextTimerId w; timer_due := now w + 10; timer_cb := Runner |}.

(** The world [runner] leaves when the interpreter is blocked, and when it
    is finished. *)
Definition rescheduled (w : World) : World :=
  with_runnerPid (nextTimerId w)
    (with_timers (timers w ++ [runner_timer w])
       (with_nextTimerId (S (nextTimerId w)) w)).

(** ** The course of a run *)

(** The calls interpreter [i] has still to make. *)
Definition remaining (i : nat) (w : World) : list HostCall :=
  match heap w !! i with Some it => program it | None => [] end.

(** An upper bound on the timer tasks a program's waits can take. *)
Fixpoint wait_budget (code : list HostCall) : nat :=
  match code with
  | [] => 0
  | CallWaitForSeconds s :: rest =>
      Z.to_nat (Z.max 0 (s * 1000)) + 2 + wait_budget rest
  | _ :: rest => wait_budget rest
  end.

(** Where a run that has [code] still to execute will end: the column and
    the error flag. *)
Definition outcome_y (code : list HostCall) (w : World) : Z :=
  Z.min (y (current_state w) + count_moves code) (COLS - 1).

Definition outcome_err (code : list HostCall) (w : World) : bool :=
  inErrorState w || (COLS - 1 <? y (current_state w) + count_moves code).

(** What [Interpreter_steps i code] does to a world [w] in which [i] is an
    unpaused interpreter about to run [code]: it returns [b] in world [w']. *)
Record slice_post (i : nat) (code : list HostCall) (w : World)
    (b : bool) (w' : World) : Prop := {
  sp_grid : on_grid w';
  sp_edge : flag_at_edge w';
  sp_x : x (current_state w') = x (current_state w);
  sp_handle : myInterpreter w' = myInterpreter w;
  sp_pid : runnerPid w' = runnerPid w;
  sp_now : now w' = now w;
  sp_checks : goalChecks w' = goalChecks w;
  sp_button : runButton_disabled w' = runButton_disabled w;
  sp_heap : heap w' !! i = Some {| program := remaining i w'; paused_ := b |};
  sp_y : outcome_y (remaining i w') w' = outcome_y code w;
  sp_err : outcome_err (remaining i w') w' = outcome_err code w;
  sp_timers :
    if b then
      exists s,
        timers w' =
          timers w ++ [{| timer_id := nextTimerId w;
                          timer_due := now w + Z.max 0 (s * 1000);
                          timer_cb := AsyncDone i |}]
        /\ nextTimerId w' = S (nextTimerId w)
        /\ (Z.to_nat (Z.max 0 (s * 1000)) + 2 + wait_budget (remaining i w')
            <= wait_budget code)%nat
    else
      timers w' = timers w /\ nextTimerId w' = nextTimerId w
      /\ remaining i w' = []
}.

(** The state of the loop while interpreter [i] is the handle: either no
    timer is pending and the program is finished, or [runner] is pending
    and [i] is not paused, or [runner] and the callback of the wait that
    pauses [i] are both pending. *)
Record run_inv (i : nat) (w : World) : Prop := {
  ri_handle : myInterpreter w = Some i;
  ri_grid : on_grid w;
  ri_edge : flag_at_edge w;
  ri_fresh : Forall (fun t => (timer_id t < nextTimerId w)%nat) (timers w);
  ri_timers :
    match timers w with
    | [] => remaining i w = []
    | [t] =>
        timer_cb t = Runner
        /\ heap w !! i = Some {| program := remaining i w; paused_ := false |}
    | [a; t] =>
        timer_cb a = AsyncDone i /\ timer_cb t = Runner
        /\ timer_id a <> timer_id t
        /\ heap w !! i = Some {| program := remaining i w; paused_ := true |}
    | _ => False
    end
}.

(** A bound on the timer tasks left before the loop is quiescent. *)
Definition run_measure (i : nat) (w : World) : nat :=
  match timers w with
  | [] => 0
  | [t] => 1 + wait_budget (remaining i w)
  | a :: t :: _ =>
      Z.to_nat (timer_due a - timer_due t) + 2 + wait_budget (remaining i w)
  end.

(** Calls of [checkGoalReached] made so far, plus the one still to come. *)
Definition checks_due (w : World) : nat :=
  match timers w with [] => goalChecks w | _ :: _ => S (goalChecks w) end.

(** ** The page as events leave it *)

(** What holds of a page that got where it is by events: the position is a
    cell, the error flag is set only in the last column, the two images sit
    where the script last put them, the grid carries its error class exactly
    in the error state, and the handle refers to an interpreter that
    exists. *)
Record well_formed (w : World) : Prop := {
  wf_grid : on_grid w;
  wf_edge : flag_at_edge w;
  wf_dog : bluedogImage_cell w = Some (current_state w);
  wf_bus : busImage_cell w = Some GOAL_STATE;
  wf_class : grid_error w = inErrorState w;
  wf_handle : forall i, myInterpreter w = Some i -> (i < length (heap w))%nat
}.

(** One task of the event loop, with its outcome: [dispatch] is its world. *)
Definition task (w : World) (e : Event) : Outcome unit :=
  match e with
  | ClickRun latestCode =>
      if runButton_disabled w then Normal tt w else runCode latestCode w
  | ClickReset => resetState w
  | TimerFires =>
      match next_timer (timers w) with
      | Some t =>
          invoke (timer_cb t)
            (with_now (Z.max (now w) (timer_due t))
               (with_timers (remove_timer (timer_id t) (timers w)) w))
      | None => Normal tt w
      end
  | TimePasses dt => Normal tt (with_now (now w + Z.max 0 dt) w)
  end.

(** ** What a run shows *)

(** The text the [alert] calls of a program add to the output area. *)
Fixpoint rendered (code : list HostCall) : string :=
  match code with
  | [] => EmptyString
  | CallAlert text :: rest =>
      String.append
        (String.append newline
           (match text with Some s => s | None => EmptyString end))
        (rendered rest)
  | _ :: rest => rendered rest
  end.

(** The overshoot message a run that has [code] still to execute will
    show. *)
Definition overshoot_due (code : list HostCall) (w : World) : list string :=
  if inErrorState w then []
  else if COLS - 1 <? y (current_state w) + count_moves code
       then [msg_too_far] else [].

(** The message its goal check will show. *)
Definition verdict (code : list HostCall) (w : World) : list string :=
  if outcome_err code w then []
  else if (x (current_state w) =? x GOAL_STATE)
          && (outcome_y code w =? y GOAL_STATE)
       then [msg_goal] else [msg_no_goal].

(** The messages and the output of the run of interpreter [i] when it will
    be over. *)
Definition alerts_due (i : nat) (w : World) : list string :=
  alerts w ++ overshoot_due (remaining i w) w
  ++ match timers w with [] => [] | _ :: _ => verdict (remaining i w) w end.

Definition output_due (i : nat) (w : World) : string :=
  String.append (outputArea_value w) (rendered (remaining i w)).

(** The messages of a run from [START_STATE] that makes [k] moves. *)
Definition run_messages (k : Z) : list string :=
  if k <? COLS - 1 then [msg_no_goal]
  else if k =? COLS - 1 then [msg_goal] else [msg_too_far].

(** ** Pending timers *)





(** ** How long a run lasts *)

(** The milliseconds a program asks to wait, and the waits it makes. *)
Fixpoint waits_total (code : list HostCall) : Z :=
  match code with
  | [] => 0
  | CallWaitForSeconds s :: rest => Z.max 0 (s * 1000) + waits_total rest
  | _ :: rest => waits_total rest
  end.

Fixpoint count_waits (code : list HostCall) : Z :=
  match code with
  | [] => 0
  | CallWaitForSeconds _ :: rest => 1 + count_waits rest
  | _ :: rest => count_waits rest
  end.

(** No pending timer is overdue. *)
Definition timers_ahead (w : World) : Prop :=
  Forall (fun t => now w <= timer_due t) (timers w).

(** The run of interpreter [i] is not over before [finish_from], and is over
    by [finish_by], when every timer fires at the time it is due. *)
Definition finish_from (i : nat) (w : World) : Z :=
  match timers w with
  | [] => now w
  | [t] => timer_due t + waits_total (remaining i w)
  | a :: t :: _ =>
      Z.max (timer_due a) (timer_due t) + waits_total (remaining i w)
  end.

Definition finish_by (i : nat) (w : World) : Z :=
  match timers w with
  | [] => now w
  | [t] =>
      timer_due t + waits_total (remaining i w)
      + 10 * count_waits (remaining i w)
  | a :: t :: _ =>
      Z.max (timer_due a + 10) (timer_due t) + waits_total (remaining i w)
      + 10 * count_waits (remaining i w)
  end.

(** ** The cells of the grid *)

(** A [div] of the grid. *)
Record Cell := { cell_id : string; cell_className : string }.

(** A JavaScript integer appended to a string: its decimal digits, after a
    minus sign when it is negative (the form JavaScript gives every integer
    below [10^21] in absolute value). *)
Definition number_to_string (n : Z) : string :=
  NilZero.string_of_int (Z.to_int n).

(** ["cell" + i + "_" + j] *)
Definition cell_name (i j : Z) : string :=
  String.append
    (String.append (String.append "cell" (number_to_string i)) "_")
    (number_to_string j).

Definition new_cell (i j : Z) : Cell :=
  {| cell_id := cell_name i j; cell_className := "cell" |}.

(** The cells [drawGrid] appends to the grid, in the order of its two
    loops, with the bounds of the loops as parameters. *)
Definition drawGrid_cells (rows cols : Z) : list Cell :=
  mbind (fun i => fmap (new_cell i) (seqZ 0 cols)) (seqZ 0 rows).

(** [drawGrid()] *)
Definition drawGrid : list Cell := drawGrid_cells ROWS COLS.

(** [document.getElementById(id)] among the cells: the first one with this
    id, [null] when there is none.  (The other ids of the page,
    [blocklyDiv], [bluedogImage], [busImage], [runButton], [resetButton],
    are not names of cells.) *)
Definition getElementById (id : string) (cells : list Cell) : option Cell :=
  List.find (fun c => String.eqb (cell_id c) id) cells.

(** Whether a character occurs in a string. *)
Fixpoint occurs (c : ascii) (s : string) : bool :=
  match s with
  | EmptyString => false
  | String a rest => Ascii.eqb a c || occurs c rest
  end.

(** ** The limits of the page's elements and timers *)

(** The delay the host gives a timer: the number it is passed, converted to
    a 32-bit integer (taken modulo [2^32] into [-2^31 .. 2^31 - 1]), a
    negative one counting as zero. *)
Definition host_delay (delay : Z) : Z :=
  Z.max 0 ((delay + 2147483648) mod 4294967296 - 2147483648).

(** A wait whose delay [timeInSeconds * 1000] that conversion leaves as it
    is, and a program all of whose waits are such. *)
Definition delay_in_range (timeInSeconds : Z) : bool :=
  (-2147483648 <=? timeInSeconds * 1000)
  && (timeInSeconds * 1000 <=? 2147483647).

Fixpoint waits_in_range (code : list HostCall) : bool :=
  match code with
  | [] => true
  | CallWaitForSeconds s :: rest => delay_in_range s && waits_in_range rest
  | _ :: rest => waits_in_range rest
  end.

(** The carriage return.  A text area gives its value back with every line
    break turned into a line feed, so it gives a string back as it was set
    when the string holds no carriage return. *)
Definition carriage_return : ascii := Ascii.ascii_of_nat 13.

Definition kept_by_text_area (s : string) : bool :=
  negb (occurs carriage_return s).

(** A program whose [alert] texts are such strings. *)
Fixpoint alerts_kept (code : list HostCall) : bool :=
  match code with
  | [] => true
  | CallAlert (Some s) :: rest => kept_by_text_area s && alerts_kept rest
  | _ :: rest => alerts_kept rest
  end.

(** * Proofs *)

(** ** Concrete runs *)

Example initial_world_fields :
  current_state initial_world = START_STATE
  /\ bluedogImage_cell initial_world = Some START_STATE
  /\ busImage_cell initial_world = Some GOAL_STATE
  /\ runButton_disabled initial_world = false
  /\ timers initial_world = [].
Proof. repeat split. Qed.

Example one_move_run :
  let w := run_events initial_world [ClickRun (moves 1); TimerFires] in
  current_state w = {| x := 0; y := 1 |}
  /\ alerts w = [msg_no_goal] /\ timers w = [].
Proof. vm_compute. repeat split. Qed.

Example four_moves_run :
  let w := run_events initial_world [ClickRun (moves 4); TimerFires] in
  current_state w = {| x := 0; y := 2 |}
  /\ inErrorState w = true /\ grid_error w = true
  /\ alerts w = [msg_too_far] /\ goalChecks w = 1%nat.
Proof. vm_compute. repeat split. Qed.

Example blocked_world_fields :
  myInterpreter blocked_world = Some 0%nat
  /\ heap blocked_world
     = [{| program := [CallMoveForward]; paused_ := true |}]
  /\ map timer_cb (timers blocked_world) = [AsyncDone 0; Runner]
  /\ map timer_due (timers blocked_world) = [1001; 11]
  /\ runnerPid blocked_world = 3%nat
  /\ runButton_disabled blocked_world = true.
Proof. vm_compute. repeat split. Qed.

Example wait_run :
  exists w,
    settle 200 (run_events initial_world [ClickRun move_wait_move]) = Some w
    /\ current_state w = GOAL_STATE
    /\ alerts w = [msg_goal]
    /\ outputArea_value w = String.append newline "done"
    /\ now w = 1001.
Proof. eexists. split; [vm_compute; reflexivity |]. repeat split. Qed.

Example moveForward_off_grid :
  let w := with_current_state {| x := 5; y := 0 |} initial_world in
  returns (moveForward w) = false
  /\ current_state (world_of (moveForward w)) = {| x := 5; y := 1 |}.
Proof. vm_compute. repeat split. Qed.

(** ** Properties kept by computations *)

Section Preserves.
Context (P : World -> Prop).

Lemma preserves_ret {A} (a : A) : preserves P (ret a).
Proof using Type. intros w H; exact H. Qed.

Lemma preserves_throw {A} err : preserves P (@throw A err).
Proof using Type. intros w H; exact H. Qed.

Lemma preserves_get {A} (f : World -> A) : preserves P (get f).
Proof using Type. intros w H; exact H. Qed.

Lemma preserves_modify f :
  (forall w, P w -> P (f w)) -> preserves P (modify f).
Proof using Type. intros Hf w H; apply Hf, H. Qed.

Lemma preserves_bind {A B} (m : Host A) (k : A -> Host B) :
  preserves P m -> (forall a, preserves P (k a)) -> preserves P (bind m k).
Proof using Type.
  intros Hm Hk w H. unfold bind. specialize (Hm w H).
  destruct (m w) as [a w'|e w']; simpl in *; [apply Hk, Hm | exact Hm].
Qed.

End Preserves.

Ltac preserves_step :=
  first
    [ apply preserves_ret
    | apply preserves_get
    | apply preserves_throw
    | apply preserves_bind; [| intros ?]
    | apply preserves_modify; intros ? ?; cbn
    | match goal with
      | |- preserves _ (match ?v with _ => _ end) => destruct v
      end ].

Ltac preserves_tac := repeat preserves_step.

(** ** Invariants of the position

    A property [Q] of the position that holds at [START_STATE] and that a
    step forward inside the grid keeps holds in every reachable world. *)
Section PositionInvariant.
Context (Q : Position -> Prop).
Hypothesis Q_start : Q START_STATE.
Hypothesis Q_move :
  forall p, Q p -> y p < COLS - 1 -> Q {| x := x p; y := y p + 1 |}.

Let P (w : World) : Prop := Q (current_state w).

Lemma moveForward_keeps : preserves P moveForward.
Proof using Q_move.
  intros w H. unfold P in *. unfold moveForward, bind, get, modify, ret.
  destruct (inErrorState w); [exact H |].
  destruct (y (current_state w) <? COLS - 1) eqn:E; cbn.
  - apply Z.ltb_lt in E. unfold moveImage.
    destruct (cell_exists _); cbn; apply Q_move; assumption.
  - exact H.
Qed.

Lemma wrapperAlert_keeps text : preserves P (wrapperAlert text).
Proof using Type. unfold wrapperAlert. preserves_tac; assumption. Qed.

Lemma setTimeout_keeps cb delay : preserves P (setTimeout cb delay).
Proof using Type. intros w H; exact H. Qed.

Lemma set_interpreter_keeps i it : preserves P (set_interpreter i it).
Proof using Type. unfold set_interpreter. preserves_tac; assumption. Qed.

Lemma Interpreter_steps_keeps i code : preserves P (Interpreter_steps i code).
Proof using Q_move.
  induction code as [|c rest IH]; cbn [Interpreter_steps].
  - apply preserves_ret.
  - destruct c as [|text|s].
    + apply preserves_bind; [apply set_interpreter_keeps | intros _].
      apply preserves_bind; [apply moveForward_keeps | intros _; exact IH].
    + apply preserves_bind; [apply set_interpreter_keeps | intros _].
      apply preserves_bind; [apply wrapperAlert_keeps | intros _; exact IH].
    + apply preserves_bind; [apply set_interpreter_keeps | intros _].
      apply preserves_bind; [| intros _; apply preserves_ret].
      unfold waitForSeconds.
      apply preserves_bind; [apply setTimeout_keeps | intros _].
      apply preserves_ret.
Qed.

Lemma Interpreter_run_keeps i : preserves P (Interpreter_run i).
Proof using Q_move.
  unfold Interpreter_run. apply preserves_bind; [apply preserves_get |].
  intros h. destruct (h !! i) as [it|]; [| apply preserves_throw].
  destruct (paused_ it); [apply preserves_ret | apply Interpreter_steps_keeps].
Qed.

Lemma checkGoalReached_keeps : preserves P checkGoalReached.
Proof using Type.
  intros w H. unfold checkGoalReached, window_alert, bind, modify, get, ret.
  cbn. destruct (inErrorState w); cbn; [exact H |].
  destruct (_ && _); exact H.
Qed.

Lemma runner_keeps : preserves P runner.
Proof using Q_move.
  unfold runner. apply preserves_bind; [apply preserves_get |].
  intros [i|]; [| apply preserves_ret].
  apply preserves_bind; [apply Interpreter_run_keeps |].
  intros [|]; [| apply checkGoalReached_keeps].
  apply preserves_bind; [apply setTimeout_keeps |].
  intros pid. preserves_tac. assumption.
Qed.

Lemma invoke_keeps cb : preserves P (invoke cb).
Proof using Q_move.
  destruct cb as [code| |i]; cbn [invoke].
  - unfold beginExecution. apply preserves_bind; [intros w H; exact H |].
    intros i. apply preserves_bind; [preserves_tac; assumption |].
    intros _. apply runner_keeps.
  - apply runner_keeps.
  - unfold asyncDone. apply preserves_modify. intros w H.
    destruct (heap w !! i); exact H.
Qed.

Lemma resetStepUi_keeps : preserves P resetStepUi.
Proof using Type.
  unfold resetStepUi, clearTimeout. preserves_tac; assumption.
Qed.

Lemma moveImage_keeps p img : preserves P (moveImage p img).
Proof using Type.
  unfold moveImage. destruct (cell_exists p); preserves_tac.
  destruct img; assumption.
Qed.

Lemma resetState_establishes w : P (world_of (resetState w)).
Proof using Q_start.
  unfold resetState. unfold bind at 1. cbn [modify].
  assert (H0 : P (with_current_state START_STATE w)) by exact Q_start.
  revert H0. generalize (with_current_state START_STATE w). intros w0 H0.
  refine (preserves_bind P _ _ _ _ w0 H0); [apply moveImage_keeps |].
  intros _. apply preserves_bind; [apply moveImage_keeps |].
  intros _. apply preserves_bind; [apply resetStepUi_keeps |].
  intros _. preserves_tac; assumption.
Qed.

Lemma runCode_establishes latestCode w : P (world_of (runCode latestCode w)).
Proof using Q_start.
  unfold runCode. unfold bind at 1.
  pose proof (resetState_establishes w) as H.
  destruct (resetState w) as [[] w0|e w0]; cbn [world_of] in *; [| exact H].
  revert H. generalize w0. clear w0.
  change (preserves P
    (h <- get myInterpreter ;;
     match h with
     | None =>
         resetStepUi ;;
         modify (with_runButton_disabled true) ;;
         _ <- setTimeout (BeginExecution latestCode) 1 ;;
         ret tt
     | Some _ => ret tt
     end)).
  apply preserves_bind; [apply preserves_get |].
  intros [i|]; [apply preserves_ret |].
  apply preserves_bind; [apply resetStepUi_keeps |].
  intros _. apply preserves_bind; [preserves_tac; assumption |].
  intros _. apply preserves_bind; [apply setTimeout_keeps |].
  intros _. apply preserves_ret.
Qed.

Lemma dispatch_keeps w e : P w -> P (dispatch w e).
Proof using Q_start Q_move.
  intros H. destruct e as [code| | |dt]; cbn [dispatch].
  - destruct (runButton_disabled w); [exact H | apply runCode_establishes].
  - apply resetState_establishes.
  - destruct (next_timer (timers w)) as [t|]; [| exact H].
    apply invoke_keeps. exact H.
  - exact H.
Qed.

Lemma reachable_keeps w : reachable w -> P w.
Proof using Q_start Q_move.
  induction 1 as [|w e _ IH].
  - apply resetState_establishes.
  - apply dispatch_keeps, IH.
Qed.

End PositionInvariant.

(** ** One slice of interpretation *)

Lemma count_moves_nonneg code : 0 <= count_moves code.
Proof. induction code as [|[| |] rest IH]; cbn; lia. Qed.

Lemma cell_exists_iff p :
  cell_exists p = true <-> 0 <= x p < ROWS /\ 0 <= y p < COLS.
Proof.
  unfold cell_exists. rewrite !andb_true_iff, !Z.leb_le, !Z.ltb_lt. lia.
Qed.

Lemma moveForward_on_grid w :
  on_grid w ->
  moveForward w =
    Normal tt
      (if inErrorState w then w
       else if y (current_state w) <? COLS - 1 then
         let p := {| x := x (current_state w); y := y (current_state w) + 1 |} in
         with_image_cell bluedogImage p (with_current_state p w)
       else
         with_alerts (alerts w ++ [msg_too_far])
           (with_grid_error true (with_inErrorState true w))).
Proof.
  unfold on_grid. intros H. apply cell_exists_iff in H.
  unfold moveForward, bind, get, modify, ret, moveImage, window_alert.
  destruct (inErrorState w); [reflexivity |].
  destruct (y (current_state w) <? COLS - 1) eqn:E; cbn; [| reflexivity].
  apply Z.ltb_lt in E.
  assert (C : cell_exists
                {| x := x (current_state w); y := y (current_state w) + 1 |}
              = true).
  { apply cell_exists_iff; cbn. unfold COLS in *. lia. }
  rewrite C. reflexivity.
Qed.

Lemma remaining_lookup i w it :
  heap w !! i = Some it -> remaining i w = program it.
Proof. unfold remaining. intros ->. reflexivity. Qed.

Lemma heap_set_lookup i (h : list Interpreter) it0 it :
  h !! i = Some it0 -> <[i := it]> h !! i = Some it.
Proof.
  intros H. apply list_lookup_insert_eq. eapply lookup_lt_Some, H.
Qed.

Lemma slice_post_weaken i code code' w w0 b w' :
  slice_post i code' w0 b w' ->
  x (current_state w0) = x (current_state w) ->
  myInterpreter w0 = myInterpreter w ->
  runnerPid w0 = runnerPid w ->
  now w0 = now w ->
  goalChecks w0 = goalChecks w ->
  runButton_disabled w0 = runButton_disabled w ->
  timers w0 = timers w ->
  nextTimerId w0 = nextTimerId w ->
  outcome_y code' w0 = outcome_y code w ->
  outcome_err code' w0 = outcome_err code w ->
  wait_budget code' = wait_budget code ->
  slice_post i code w b w'.
Proof.
  intros [] Hx Hh Hp Hn Hc Hb Ht Hi Hy He Hw.
  constructor; try assumption; try congruence.
  destruct b; cbv beta iota in *.
  - destruct sp_timers0 as (s & E1 & E2 & E3). exists s.
    rewrite <- Ht, <- Hi, <- Hn, <- Hw. auto.
  - rewrite <- Ht, <- Hi. exact sp_timers0.
Qed.

Lemma Interpreter_steps_slice i code :
  forall w,
    on_grid w -> flag_at_edge w ->
    heap w !! i = Some {| program := code; paused_ := false |} ->
    exists b w',
      Interpreter_steps i code w = Normal b w' /\ slice_post i code w b w'.
Proof.
  induction code as [|c rest IH]; intros w Hg He Hh.
  - exists false, w. split; [reflexivity |].
    pose proof (remaining_lookup _ _ _ Hh) as Hr. cbn in Hr.
    constructor; try reflexivity; try assumption.
    + rewrite Hr. exact Hh.
    + rewrite Hr. reflexivity.
    + rewrite Hr. reflexivity.
    + auto.
  - destruct c as [|text|s]; cbn [Interpreter_steps];
      unfold bind at 1; unfold set_interpreter at 1; cbn [modify].
    + (* moveForward *)
      set (w1 := with_heap _ w).
      assert (Hg1 : on_grid w1) by exact Hg.
      unfold bind at 1. unfold moveForwardWrapper.
      rewrite (moveForward_on_grid w1 Hg1).
      apply cell_exists_iff in Hg. unfold COLS, ROWS in Hg.
      assert (Hh1 : heap w1 !! i = Some {| program := rest; paused_ := false |})
        by (eapply heap_set_lookup, Hh).
      pose proof (count_moves_nonneg rest) as Hc.
      unfold flag_at_edge in He.
      destruct (inErrorState w1) eqn:Ee; [| destruct (_ <? _) eqn:Ey].
      * destruct (IH w1 Hg1 He Hh1) as (b & w' & Hrun & Hpost).
        exists b, w'. split; [exact Hrun |].
        eapply slice_post_weaken; [exact Hpost | reflexivity ..| | | ].
        -- unfold outcome_y; cbn. cbn in Ee. specialize (He Ee).
           unfold COLS in *. lia.
        -- unfold outcome_err; cbn. cbn in Ee. rewrite Ee. reflexivity.
        -- reflexivity.
      * apply Z.ltb_lt in Ey. cbn in Ey, Ee. unfold COLS in Ey.
        match goal with |- context [Interpreter_steps i rest ?v] =>
          set (w2 := v) end.
        assert (Hg2 : on_grid w2).
        { apply cell_exists_iff; cbn. unfold COLS, ROWS. lia. }
        assert (He2 : flag_at_edge w2).
        { unfold flag_at_edge; cbn. rewrite Ee. discriminate. }
        destruct (IH w2 Hg2 He2 Hh1) as (b & w' & Hrun & Hpost).
        exists b, w'. split; [exact Hrun |].
        eapply slice_post_weaken; [exact Hpost | reflexivity ..| | | ].
        -- unfold outcome_y; cbn. f_equal. lia.
        -- unfold outcome_err; cbn. rewrite Z.add_assoc. reflexivity.
        -- reflexivity.
      * apply Z.ltb_ge in Ey. cbn in Ey, Ee. unfold COLS in Ey.
        match goal with |- context [Interpreter_steps i rest ?v] =>
          set (w2 := v) end.
        assert (Hg2 : on_grid w2) by exact Hg1.
        assert (He2 : flag_at_edge w2).
        { unfold flag_at_edge; cbn. unfold COLS. lia. }
        destruct (IH w2 Hg2 He2 Hh1) as (b & w' & Hrun & Hpost).
        exists b, w'. split; [exact Hrun |].
        eapply slice_post_weaken; [exact Hpost | reflexivity ..| | | ].
        -- unfold outcome_y; cbn. unfold COLS. lia.
        -- unfold outcome_err; cbn. rewrite Ee. cbn. symmetry.
           apply Z.ltb_lt. unfold COLS. lia.
        -- reflexivity.
    + (* alert *)
      set (w1 := with_heap _ w).
      unfold bind at 1. unfold wrapperAlert at 1. cbn [modify].
      match goal with |- context [Interpreter_steps i rest ?v] =>
        set (w2 := v) end.
      assert (Hh1 : heap w2 !! i = Some {| program := rest; paused_ := false |})
        by (eapply heap_set_lookup, Hh).
      destruct (IH w2 Hg He Hh1) as (b & w' & Hrun & Hpost).
      exists b, w'. split; [exact Hrun |].
      eapply slice_post_weaken; [exact Hpost | reflexivity ..].
    + (* waitForSeconds *)
      set (w1 := with_heap _ w).
      unfold bind, waitForSeconds, setTimeout, ret.
      eexists true, _. split; [reflexivity |].
      assert (Hh1 : heap w1 !! i = Some {| program := rest; paused_ := true |})
        by (eapply heap_set_lookup, Hh).
      pose proof (remaining_lookup _ _ _ Hh1) as Hr. cbn in Hr.
      constructor; try reflexivity; try assumption.
      * unfold remaining at 1. cbn [heap with_timers with_nextTimerId].
        change (heap w1 !! i =
                Some {| program := remaining i w1; paused_ := true |}).
        rewrite Hr. exact Hh1.
      * unfold remaining. cbn [heap with_timers with_nextTimerId].
        fold (remaining i w1). rewrite Hr. reflexivity.
      * unfold remaining. cbn [heap with_timers with_nextTimerId].
        fold (remaining i w1). rewrite Hr. reflexivity.
      * exists s. split; [reflexivity |]. split; [reflexivity |].
        unfold remaining. cbn [heap with_timers with_nextTimerId].
        fold (remaining i w1). rewrite Hr. cbn [wait_budget]. lia.
Qed.

(** ** A run, from its first slice to quiescence *)

Lemma checkGoalReached_eq w :
  checkGoalReached w = Normal tt (goal_checked w).
Proof.
  unfold checkGoalReached, goal_checked, goal_messages, bind, modify, get, ret,
    window_alert.
  cbn. destruct (inErrorState w); cbn.
  - rewrite app_nil_r. destruct w; reflexivity.
  - destruct (_ && _); reflexivity.
Qed.

Lemma runner_paused i w it :
  myInterpreter w = Some i ->
  heap w !! i = Some it -> paused_ it = true ->
  runner w = Normal tt (rescheduled w).
Proof.
  intros Hm Hh Hp. unfold runner, Interpreter_run. unfold bind at 1.
  cbn [get]. rewrite Hm. unfold bind at 1. unfold bind at 1. cbn [get].
  rewrite Hh, Hp. reflexivity.
Qed.

Lemma runner_unpaused i w :
  myInterpreter w = Some i -> on_grid w -> flag_at_edge w ->
  heap w !! i = Some {| program := remaining i w; paused_ := false |} ->
  exists b w1,
    slice_post i (remaining i w) w b w1
    /\ runner w = Normal tt (if b then rescheduled w1 else goal_checked w1).
Proof.
  intros Hm Hg He Hh.
  destruct (Interpreter_steps_slice i _ w Hg He Hh) as (b & w1 & Hrun & Hpost).
  exists b, w1. split; [exact Hpost |].
  unfold runner, Interpreter_run. unfold bind at 1.
  cbn [get]. rewrite Hm. unfold bind at 1. unfold bind at 1. cbn [get].
  rewrite Hh. cbn [paused_ program].
  rewrite Hrun. destruct b; [reflexivity | apply checkGoalReached_eq].
Qed.

Lemma remaining_heap i w w' : heap w' = heap w -> remaining i w' = remaining i w.
Proof. unfold remaining. intros ->. reflexivity. Qed.

Lemma outcome_y_state code w w' :
  current_state w' = current_state w -> outcome_y code w' = outcome_y code w.
Proof. unfold outcome_y. intros ->. reflexivity. Qed.

Lemma outcome_err_state code w w' :
  current_state w' = current_state w -> inErrorState w' = inErrorState w ->
  outcome_err code w' = outcome_err code w.
Proof. unfold outcome_err. intros -> ->. reflexivity. Qed.

(** [runner], called when no timer is pending and the handle is not paused:
    it runs one slice and either re-arms itself behind the wait's callback
    or makes the goal check. *)
Lemma runner_slice i w :
  myInterpreter w = Some i -> on_grid w -> flag_at_edge w ->
  heap w !! i = Some {| program := remaining i w; paused_ := false |} ->
  timers w = [] ->
  let w' := world_of (runner w) in
  run_inv i w'
  /\ (run_measure i w' <= wait_budget (remaining i w))%nat
  /\ outcome_y (remaining i w') w' = outcome_y (remaining i w) w
  /\ outcome_err (remaining i w') w' = outcome_err (remaining i w) w
  /\ checks_due w' = S (goalChecks w)
  /\ runButton_disabled w' = runButton_disabled w
  /\ x (current_state w') = x (current_state w).
Proof.
  intros Hm Hg He Hh E.
  destruct (runner_unpaused i w Hm Hg He Hh) as (b & w1 & Hpost & Hrun).
  rewrite Hrun. cbn [world_of]. destruct Hpost.
  destruct b; cbv beta iota in *.
  - destruct sp_timers0 as (s & Et & En & Eb).
    rewrite E in Et. cbn [app] in Et.
    assert (Er : remaining i (rescheduled w1) = remaining i w1)
      by (apply remaining_heap; reflexivity).
    repeat split.
    + cbn. rewrite sp_handle0. exact Hm.
    + exact sp_grid0.
    + exact sp_edge0.
    + unfold rescheduled. cbn [timers with_runnerPid with_timers nextTimerId].
      rewrite Et. cbn [app]. repeat constructor; cbn; lia.
    + unfold rescheduled at 1.
      cbn [timers with_runnerPid with_timers]. rewrite Et. cbn [app].
      rewrite Er. cbn. rewrite En. repeat split; try lia. exact sp_heap0.
    + unfold run_measure, rescheduled at 1.
      cbn [timers with_runnerPid with_timers]. rewrite Et. cbn [app].
      rewrite Er. cbn [timer_due runner_timer]. rewrite sp_now0. lia.
    + rewrite Er. rewrite <- sp_y0. apply outcome_y_state. reflexivity.
    + rewrite Er. rewrite <- sp_err0. apply outcome_err_state; reflexivity.
    + unfold checks_due, rescheduled at 1.
      cbn [timers with_runnerPid with_timers]. rewrite Et. cbn.
      rewrite sp_checks0. reflexivity.
    + exact sp_button0.
    + exact sp_x0.
  - destruct sp_timers0 as (Et & En & Eb). rewrite E in Et.
    assert (Er : remaining i (goal_checked w1) = remaining i w1)
      by (apply remaining_heap; reflexivity).
    repeat split.
    + cbn. rewrite sp_handle0. exact Hm.
    + exact sp_grid0.
    + exact sp_edge0.
    + unfold goal_checked. cbn [timers with_alerts with_goalChecks].
      rewrite Et. constructor.
    + unfold goal_checked at 1. cbn [timers with_alerts with_goalChecks].
      rewrite Et, Er. exact Eb.
    + unfold run_measure, goal_checked at 1.
      cbn [timers with_alerts with_goalChecks]. rewrite Et. lia.
    + rewrite Er. rewrite <- sp_y0. apply outcome_y_state. reflexivity.
    + rewrite Er. rewrite <- sp_err0. apply outcome_err_state; reflexivity.
    + unfold checks_due, goal_checked at 1.
      cbn [timers with_alerts with_goalChecks]. rewrite Et. cbn.
      rewrite sp_checks0. reflexivity.
    + exact sp_button0.
    + exact sp_x0.
Qed.

(** One timer task of a run keeps the loop's invariant, uses up some of the
    budget, and changes neither where the run will end nor the number of
    goal checks it will have made. *)
Lemma timer_task i w :
  run_inv i w -> timers w <> [] ->
  let w' := dispatch w TimerFires in
  run_inv i w'
  /\ (run_measure i w' < run_measure i w)%nat
  /\ outcome_y (remaining i w') w' = outcome_y (remaining i w) w
  /\ outcome_err (remaining i w') w' = outcome_err (remaining i w) w
  /\ checks_due w' = checks_due w
  /\ runButton_disabled w' = runButton_disabled w
  /\ x (current_state w') = x (current_state w).
Proof.
  intros [Hm Hg He Hf Ht] Hne. unfold dispatch, run_measure at 2, checks_due at 2.
  destruct (timers w) as [|t [|t2 [|]]] eqn:E; try contradiction.
  - (* only runner is pending *)
    destruct Ht as [Hcb Hh]. cbn [next_timer remove_timer].
    rewrite Nat.eqb_refl, Hcb. cbn [invoke].
    set (w0 := with_now _ _).
    destruct (runner_slice i w0 Hm Hg He Hh eq_refl)
      as (Hinv & Hmu & Hy & Herr & Hc & Hb & Hx).
    change (remaining i w0) with (remaining i w) in *.
    split; [exact Hinv |]. split; [lia |]. split; [exact Hy |].
    split; [exact Herr |]. split; [exact Hc |]. split; [exact Hb | exact Hx].
  - (* runner and the callback of a wait are pending *)
    destruct Ht as (Ha & Hr & Hid & Hh).
    apply Forall_cons in Hf as [Hfa Hf]. apply Forall_cons in Hf as [Hft _].
    cbn [next_timer]. destruct (timer_due t2 <? timer_due t) eqn:Ed.
    + (* runner polls the paused interpreter *)
      apply Z.ltb_lt in Ed. cbn [remove_timer].
      rewrite Nat.eqb_refl. rewrite (proj2 (Nat.eqb_neq _ _) Hid).
      rewrite Hr. cbn [invoke]. set (w0 := with_now _ _).
      rewrite (runner_paused i w0 _ Hm Hh eq_refl). cbn [world_of].
      assert (Er : remaining i (rescheduled w0) = remaining i w)
        by (apply remaining_heap; reflexivity).
      repeat split; try assumption.
      * cbn. repeat constructor; cbn; lia.
      * cbn. lia.
      * unfold run_measure. rewrite Er. cbn. lia.
    + (* the wait is over *)
      apply Z.ltb_ge in Ed. cbn [remove_timer].
      rewrite Nat.eqb_refl.
      assert (Hid' : Nat.eqb (timer_id t2) (timer_id t) = false)
        by (apply Nat.eqb_neq; congruence).
      rewrite Hid', Ha. cbn [invoke]. set (w0 := with_now _ _).
      unfold asyncDone, modify. cbn [world_of].
      change (heap w0) with (heap w). rewrite Hh. cbn [program].
      set (w1 := with_heap _ w0).
      assert (Hh1 : heap w1 !! i
                    = Some {| program := remaining i w; paused_ := false |})
        by (eapply heap_set_lookup, Hh).
      assert (Er : remaining i w1 = remaining i w)
        by (apply (remaining_lookup _ _ _ Hh1)).
      repeat split; try assumption.
      * cbn. repeat constructor; cbn; lia.
      * rewrite Er. exact Hh1.
      * unfold run_measure. rewrite Er. cbn. lia.
      * rewrite Er. reflexivity.
      * rewrite Er. reflexivity.
Qed.

Lemma quiescent_outcome i w :
  run_inv i w -> timers w = [] ->
  y (current_state w) = outcome_y (remaining i w) w
  /\ inErrorState w = outcome_err (remaining i w) w
  /\ goalChecks w = checks_due w.
Proof.
  intros [Hm Hg He Hf Ht] E. rewrite E in Ht.
  apply cell_exists_iff in Hg. unfold flag_at_edge in He.
  unfold outcome_y, outcome_err, checks_due.
  rewrite E, Ht. cbn [count_moves]. unfold COLS in *.
  split; [lia |]. split; [| reflexivity].
  destruct (inErrorState w); [reflexivity |]. cbn. symmetry.
  apply Z.ltb_ge. lia.
Qed.

Lemma settle_quiescent n w : timers w = [] -> settle n w = Some w.
Proof. intros E. destruct n; cbn [settle]; rewrite E; reflexivity. Qed.

(** With enough fuel the timer tasks of a run come to an end. *)
Lemma settle_run i n :
  forall w,
    run_inv i w -> (run_measure i w <= n)%nat ->
    exists w',
      settle n w = Some w'
      /\ timers w' = [] /\ run_inv i w'
      /\ y (current_state w') = outcome_y (remaining i w) w
      /\ inErrorState w' = outcome_err (remaining i w) w
      /\ goalChecks w' = checks_due w
      /\ runButton_disabled w' = runButton_disabled w
      /\ x (current_state w') = x (current_state w).
Proof.
  assert (Hq : forall m w, run_inv i w -> timers w = [] ->
            exists w',
              settle m w = Some w'
              /\ timers w' = [] /\ run_inv i w'
              /\ y (current_state w') = outcome_y (remaining i w) w
              /\ inErrorState w' = outcome_err (remaining i w) w
              /\ goalChecks w' = checks_due w
              /\ runButton_disabled w' = runButton_disabled w
              /\ x (current_state w') = x (current_state w)).
  { intros m w Hinv E. exists w.
    destruct (quiescent_outcome i w Hinv E) as (Hy & He & Hc).
    split; [apply settle_quiescent, E |]. split; [exact E |].
    split; [exact Hinv |]. split; [exact Hy |]. split; [exact He |].
    split; [exact Hc |]. split; reflexivity. }
  induction n as [|n IH]; intros w Hinv Hmu.
  - destruct (timers w) as [|t ts] eqn:E; [apply Hq; assumption |].
    unfold run_measure in Hmu. rewrite E in Hmu. destruct ts; lia.
  - destruct (timers w) as [|t ts] eqn:E; [apply Hq; assumption |].
    assert (Hne : timers w <> []) by (rewrite E; discriminate).
    destruct (timer_task i w Hinv Hne)
      as (Hinv' & Hmu' & Hy & Herr & Hc & Hb & Hx).
    destruct (IH _ Hinv') as (w' & Hs & Ht' & Hi' & Hy' & He' & Hc' & Hb' & Hx').
    { lia. }
    exists w'. cbn [settle]. rewrite E.
    split; [exact Hs |]. split; [exact Ht' |]. split; [exact Hi' |].
    split; [congruence |]. split; [congruence |]. split; [congruence |].
    split; congruence.
Qed.

Lemma beginExecution_eq code w :
  beginExecution code w =
    runner
      (with_myInterpreter (Some (length (heap w)))
         (with_heap (heap w ++ [{| program := code; paused_ := false |}]) w)).
Proof. reflexivity. Qed.

(** A whole run, from the task that builds the interpreter to quiescence. *)
Lemma begin_run code w :
  on_grid w -> flag_at_edge w -> timers w = [] ->
  exists fuel w',
    settle fuel (world_of (beginExecution code w)) = Some w'
    /\ timers w' = []
    /\ y (current_state w') = outcome_y code w
    /\ inErrorState w' = outcome_err code w
    /\ goalChecks w' = S (goalChecks w)
    /\ myInterpreter w' = Some (length (heap w))
    /\ runButton_disabled w' = runButton_disabled w
    /\ x (current_state w') = x (current_state w).
Proof.
  intros Hg He E. rewrite beginExecution_eq.
  set (i := length (heap w)). set (wA := with_myInterpreter _ _).
  assert (Hh : heap wA !! i = Some {| program := code; paused_ := false |})
    by (apply list_lookup_middle; reflexivity).
  pose proof (remaining_lookup _ _ _ Hh) as Hr. cbn [program] in Hr.
  rewrite <- Hr in Hh.
  destruct (runner_slice i wA eq_refl Hg He Hh E)
    as (Hinv & Hmu & Hy & Herr & Hc & Hb & Hx).
  destruct (settle_run i _ _ Hinv (Nat.le_refl _))
    as (w' & Hs & Ht' & Hi' & Hy' & He' & Hc' & Hb' & Hx').
  exists (run_measure i (world_of (runner wA))), w'.
  split; [exact Hs |]. split; [exact Ht' |].
  rewrite Hr in Hy, Herr.
  split; [rewrite Hy', Hy; reflexivity |].
  split; [rewrite He', Herr; reflexivity |].
  split; [rewrite Hc', Hc; reflexivity |].
  split; [apply Hi' |].
  split; [rewrite Hb', Hb; reflexivity | rewrite Hx', Hx; reflexivity].
Qed.

(** The run button during a run: the first slice and every later timer task
    leave it as the request set it. *)
Lemma begin_inv code w :
  on_grid w -> flag_at_edge w -> timers w = [] ->
  run_inv (length (heap w)) (world_of (beginExecution code w))
  /\ runButton_disabled (world_of (beginExecution code w))
     = runButton_disabled w.
Proof.
  intros Hg He E. rewrite beginExecution_eq.
  set (i := length (heap w)). set (wA := with_myInterpreter _ _).
  assert (Hh : heap wA !! i = Some {| program := code; paused_ := false |})
    by (apply list_lookup_middle; reflexivity).
  pose proof (remaining_lookup _ _ _ Hh) as Hr. cbn [program] in Hr.
  rewrite <- Hr in Hh.
  destruct (runner_slice i wA eq_refl Hg He Hh E) as (Hinv & _ & _ & _ & _ & Hb & _).
  split; [exact Hinv | exact Hb].
Qed.


(** * The position: moves, rows and columns *)

(** C1.  A program that calls [moveForward] [k] times (and otherwise only
    [alert] and [waitForSeconds]), run from a position on the grid in column
    [initial_y] with the error flag clear, runs to its end; it ends in column
    [min (initial_y + k) (COLS - 1)], and with the error flag set exactly when
    [initial_y + k] exceeds [COLS - 1]. *)
Theorem moveForward_k_times (w : World) (code : list HostCall) :
  on_grid w -> inErrorState w = false -> timers w = [] ->
  exists fuel w',
    settle fuel (world_of (beginExecution code w)) = Some w'
    /\ y (current_state w')
       = Z.min (y (current_state w) + count_moves code) (COLS - 1)
    /\ (inErrorState w' = true
        <-> y (current_state w) + count_moves code > COLS - 1).
Proof.
  intros Hg Hf Ht.
  assert (He : flag_at_edge w) by (unfold flag_at_edge; congruence).
  destruct (begin_run code w Hg He Ht)
    as (fuel & w' & Hs & _ & Hy & Herr & _).
  exists fuel, w'. split; [exact Hs |]. split; [exact Hy |].
  rewrite Herr. unfold outcome_err. rewrite Hf. cbn [orb].
  rewrite Z.ltb_lt. lia.
Qed.

Lemma moveForward_k_times_witness :
  exists fuel w',
    settle fuel (world_of (beginExecution move_wait_move second_column_world))
    = Some w'
    /\ y (current_state w') = Z.min (1 + 2) (COLS - 1)
    /\ (inErrorState w' = true <-> 1 + 2 > COLS - 1).
Proof.
  apply (moveForward_k_times second_column_world move_wait_move);
    reflexivity.
Defined.

(** C9.  [moveForward] never changes the row: whatever the state, error
    state included, [x] is the same after the call, and [x] is
    [START_STATE.x] in every reachable world. *)
Theorem moveForward_keeps_x :
  (forall w,
      x (current_state (world_of (moveForward w))) = x (current_state w))
  /\ (forall w, reachable w -> x (current_state w) = x START_STATE).
Proof.
  split.
  - intros w.
    apply (moveForward_keeps (fun p => x p = x (current_state w))); auto.
  - apply (reachable_keeps (fun p => x p = x START_STATE)); auto.
Qed.

Lemma moveForward_keeps_x_witness :
  x (current_state (world_of (moveForward overshoot_world)))
  = x (current_state overshoot_world)
  /\ x (current_state blocked_world) = x START_STATE.
Proof.
  split.
  - exact (proj1 moveForward_keeps_x overshoot_world).
  - apply (proj2 moveForward_keeps_x).
    unfold blocked_world. cbn [run_events fold_left].
    repeat apply reachable_dispatch. apply reachable_initial.
Defined.

(** C10.  The column stays within the grid: [0 <= y <= COLS - 1] holds in
    the initial world, [moveForward] keeps it (with the error flag set or
    not), [resetState] establishes it, and so it holds in every reachable
    world. *)
Theorem y_stays_in_grid :
  y_in_grid initial_world
  /\ (forall w, y_in_grid w -> y_in_grid (world_of (moveForward w)))
  /\ (forall w, y_in_grid (world_of (resetState w)))
  /\ (forall w, reachable w -> y_in_grid w).
Proof.
  assert (Hs : 0 <= y START_STATE <= COLS - 1) by (cbn; unfold COLS; lia).
  assert (Hm : forall p, 0 <= y p <= COLS - 1 -> y p < COLS - 1 ->
                         0 <= y {| x := x p; y := y p + 1 |} <= COLS - 1)
    by (intros p ? ?; cbn; lia).
  split; [| split; [| split]].
  - exact (resetState_establishes (fun p => 0 <= y p <= COLS - 1) Hs _).
  - exact (moveForward_keeps (fun p => 0 <= y p <= COLS - 1) Hm).
  - exact (resetState_establishes (fun p => 0 <= y p <= COLS - 1) Hs).
  - exact (reachable_keeps (fun p => 0 <= y p <= COLS - 1) Hs Hm).
Qed.

Lemma y_stays_in_grid_witness :
  y_in_grid second_column_world
  /\ y_in_grid (world_of (moveForward second_column_world))
  /\ y_in_grid (run_events initial_world [ClickRun (moves 4); TimerFires]).
Proof.
  assert (H1 : y_in_grid second_column_world) by (vm_compute; split; discriminate).
  split; [exact H1 |]. split.
  - exact (proj1 (proj2 y_stays_in_grid) second_column_world H1).
  - apply (proj2 (proj2 (proj2 y_stays_in_grid))).
    cbn [run_events fold_left]. repeat apply reachable_dispatch.
    apply reachable_initial.
Defined.

(** * Run requests, resets and completion *)

Lemma resetState_eq w : resetState w = Normal tt (reset_world w).
Proof. reflexivity. Qed.

Lemma remove_timer_idem id ts :
  remove_timer id (remove_timer id ts) = remove_timer id ts.
Proof.
  induction ts as [|t ts IH]; cbn; [reflexivity |].
  destruct (Nat.eqb (timer_id t) id) eqn:E; [exact IH |].
  cbn. rewrite E, IH. reflexivity.
Qed.

Lemma remove_timer_gone id ts :
  Forall (fun t => timer_id t <> id) (remove_timer id ts).
Proof.
  induction ts as [|t ts IH]; cbn; [constructor |].
  destruct (Nat.eqb (timer_id t) id) eqn:E; [exact IH |].
  constructor; [apply Nat.eqb_neq, E | exact IH].
Qed.

Lemma runCode_eq code w : runCode code w = Normal tt (run_requested code w).
Proof.
  unfold runCode, bind. rewrite resetState_eq.
  cbn [get reset_world myInterpreter with_grid_error with_inErrorState
         with_myInterpreter].
  unfold resetStepUi, bind, get, clearTimeout, modify, setTimeout, ret.
  cbn. rewrite remove_timer_idem. unfold run_requested. cbn.
  rewrite remove_timer_idem. reflexivity.
Qed.

Lemma start_task code w :
  timers w = [] ->
  dispatch (run_requested code w) TimerFires
  = world_of (beginExecution code (begin_world code w)).
Proof.
  intros Ht. unfold dispatch.
  assert (E : timers (run_requested code w) = [begin_timer code w]).
  { cbn. rewrite Ht. reflexivity. }
  rewrite E.
  cbn [next_timer remove_timer begin_timer timer_id timer_due timer_cb invoke].
  rewrite Nat.eqb_refl. reflexivity.
Qed.

Lemma runner_eq i w it :
  myInterpreter w = Some i -> heap w !! i = Some it -> paused_ it = false ->
  runner w =
    (hasMore <- Interpreter_steps i (program it) ;;
     if hasMore : bool then
       pid <- setTimeout Runner 10 ;; modify (with_runnerPid pid)
     else checkGoalReached) w.
Proof.
  intros Hm Hh Hp. unfold runner, Interpreter_run. unfold bind at 1.
  cbn [get]. rewrite Hm. unfold bind at 1. unfold bind at 1. cbn [get].
  rewrite Hh, Hp. reflexivity.
Qed.

Lemma beginExecution_steps code w :
  beginExecution code w =
    (hasMore <- Interpreter_steps (length (heap w)) code ;;
     if hasMore : bool then
       pid <- setTimeout Runner 10 ;; modify (with_runnerPid pid)
     else checkGoalReached)
      (with_myInterpreter (Some (length (heap w)))
         (with_heap (heap w ++ [{| program := code; paused_ := false |}]) w)).
Proof.
  rewrite beginExecution_eq.
  apply (runner_eq (length (heap w)) _ {| program := code; paused_ := false |});
    [reflexivity | | reflexivity].
  apply list_lookup_middle. reflexivity.
Qed.

(** C2, as the code has it.  A run starts at [(0,0)] and the goal is
    [(0,2)]: the program of exactly two [moveForward] calls ends on the goal
    with the goal message and the error flag clear.  The program of exactly
    three calls ends in the same cell, but its third call is an overshoot:
    the error flag is set, the overshoot message is shown and the completion
    check shows nothing. *)
Theorem two_moves_reach_goal (w : World) :
  timers w = [] ->
  let run code := dispatch (world_of (runCode code w)) TimerFires in
  (current_state (run (moves 2)) = GOAL_STATE
   /\ inErrorState (run (moves 2)) = false
   /\ alerts (run (moves 2)) = alerts w ++ [msg_goal])
  /\ (current_state (run (moves 3)) = GOAL_STATE
      /\ inErrorState (run (moves 3)) = true
      /\ alerts (run (moves 3)) = alerts w ++ [msg_too_far]).
Proof.
  intros Ht run. unfold run. rewrite !runCode_eq. cbn [world_of].
  rewrite !start_task by exact Ht. rewrite !beginExecution_steps.
  repeat split.
Qed.

Lemma two_moves_reach_goal_witness :
  (current_state completed_world = GOAL_STATE
   /\ inErrorState completed_world = false
   /\ alerts completed_world = [] ++ [msg_goal])
  /\ (current_state overshoot_world = GOAL_STATE
      /\ inErrorState overshoot_world = true
      /\ alerts overshoot_world = [] ++ [msg_too_far]).
Proof.
  exact (two_moves_reach_goal initial_world eq_refl).
Defined.

(** C2 as stated fails: after exactly three [moveForward] calls from
    [(0,0)] the error flag is set and the only message is the overshoot
    message. *)
Lemma three_moves_overshoot :
  let w := run_events initial_world [ClickRun (moves 3); TimerFires] in
  current_state w = GOAL_STATE
  /\ inErrorState w = true
  /\ alerts w = [msg_too_far]
  /\ ~ (In msg_goal (alerts w) /\ inErrorState w = false).
Proof.
  vm_compute. repeat split; intros [_ H]; discriminate H.
Qed.

(** C3, as the code has it.  A [moveForward] called in the last column sets
    the error flag and shows the overshoot message; from then on every
    [moveForward] leaves the world as it is, until [resetState] clears the
    flag.  The sandbox's [alert] does not look at the flag: it still appends
    its text to the output area. *)
Theorem overshoot_blocks_moves (w : World) :
  inErrorState w = false -> y (current_state w) = COLS - 1 ->
  exists w1,
    moveForward w = Normal tt w1
    /\ inErrorState w1 = true /\ grid_error w1 = true
    /\ alerts w1 = alerts w ++ [msg_too_far]
    /\ current_state w1 = current_state w
    /\ (forall n, Nat.iter n (fun u => world_of (moveForward u)) w1 = w1)
    /\ (forall text,
          outputArea_value (world_of (wrapperAlert (Some text) w1))
          = String.append (outputArea_value w1) (String.append newline text))
    /\ inErrorState (world_of (resetState w1)) = false
    /\ y (current_state (world_of (moveForward (world_of (resetState w1))))) = 1.
Proof.
  intros Hf Hy.
  exists (with_alerts (alerts w ++ [msg_too_far])
            (with_grid_error true (with_inErrorState true w))).
  split.
  - unfold moveForward, bind, get. rewrite Hf, Hy, Z.ltb_irrefl. reflexivity.
  - repeat split.
    induction n as [|n IH]; [reflexivity |].
    rewrite Nat.iter_succ, IH. reflexivity.
Qed.

Lemma overshoot_blocks_moves_witness :
  exists w1,
    moveForward completed_world = Normal tt w1
    /\ inErrorState w1 = true /\ grid_error w1 = true
    /\ alerts w1 = alerts completed_world ++ [msg_too_far]
    /\ current_state w1 = current_state completed_world
    /\ (forall n, Nat.iter n (fun u => world_of (moveForward u)) w1 = w1)
    /\ (forall text,
          outputArea_value (world_of (wrapperAlert (Some text) w1))
          = String.append (outputArea_value w1) (String.append newline text))
    /\ inErrorState (world_of (resetState w1)) = false
    /\ y (current_state (world_of (moveForward (world_of (resetState w1))))) = 1.
Proof.
  apply (overshoot_blocks_moves completed_world); reflexivity.
Defined.

(** C3 as stated fails for [alert]: in the error state it is not a no-op,
    it changes the output. *)
Lemma alert_after_overshoot :
  inErrorState overshoot_world = true
  /\ outputArea_value overshoot_world = EmptyString
  /\ outputArea_value (world_of (wrapperAlert (Some "hi"%string) overshoot_world))
     = String.append newline "hi"
  /\ outputArea_value
       (run_events initial_world
          [ClickRun (moves 3 ++ [CallAlert (Some "hi"%string)]); TimerFires])
     = String.append newline "hi".
Proof. vm_compute. repeat split. Qed.




(** C5, as the code has it.  A run requested when no timer is pending comes
    to an end, and up to then [checkGoalReached] is called exactly once;
    the loop does not release the handle: [myInterpreter] still holds the
    finished interpreter and the Run button stays disabled, so a click on
    Run is dropped, until a reset releases both. *)
Theorem completion_checks_goal_once (w : World) (code : list HostCall) :
  timers w = [] ->
  exists fuel w',
    settle fuel (world_of (runCode code w)) = Some w'
    /\ timers w' = []
    /\ goalChecks w' = S (goalChecks w)
    /\ myInterpreter w' = Some (length (heap w))
    /\ runButton_disabled w' = true
    /\ (forall code', dispatch w' (ClickRun code') = w')
    /\ myInterpreter (dispatch w' ClickReset) = None
    /\ runButton_disabled (dispatch w' ClickReset) = false.
Proof.
  intros Ht. rewrite runCode_eq. cbn [world_of].
  destruct (begin_run code (begin_world code w))
    as (fuel & w' & Hs & Ht' & _ & _ & Hc & Hm & Hb & _);
    [reflexivity | intros H; discriminate H | reflexivity |].
  exists (S fuel), w'. split.
  - cbn [settle].
    assert (E : timers (run_requested code w) = [begin_timer code w])
      by (cbn; rewrite Ht; reflexivity).
    rewrite E, start_task by exact Ht. exact Hs.
  - split; [exact Ht' |]. split; [exact Hc |]. split; [exact Hm |].
    split; [exact Hb |]. split.
    + intros code'. cbn [dispatch]. rewrite Hb. reflexivity.
    + cbn [dispatch]. rewrite resetState_eq. split; reflexivity.
Qed.

Lemma completion_checks_goal_once_witness :
  exists fuel w',
    settle fuel (world_of (runCode move_wait_move initial_world)) = Some w'
    /\ timers w' = []
    /\ goalChecks w' = S (goalChecks initial_world)
    /\ myInterpreter w' = Some (length (heap initial_world))
    /\ runButton_disabled w' = true
    /\ (forall code', dispatch w' (ClickRun code') = w')
    /\ myInterpreter (dispatch w' ClickReset) = None
    /\ runButton_disabled (dispatch w' ClickReset) = false.
Proof.
  apply (completion_checks_goal_once initial_world move_wait_move).
  reflexivity.
Defined.

(** C5 as stated fails: when the run is complete the handle is not
    released and no new run can be started from the Run button. *)
Lemma handle_kept_after_completion :
  timers completed_world = []
  /\ alerts completed_world = [msg_goal]
  /\ goalChecks completed_world = 1%nat
  /\ myInterpreter completed_world = Some 0%nat
  /\ runButton_disabled completed_world = true
  /\ dispatch completed_world (ClickRun (moves 2)) = completed_world.
Proof. vm_compute. repeat split. Qed.

(** What a run request leaves when [runCode] returns: the position is
    [START_STATE], the error flag and the grid's error class are cleared,
    the handle is released and the timer recorded in [runnerPid] is no
    longer pending.  The program itself starts later, in the task of the
    timer the request sets, and the lemma says nothing of the world by
    then. *)
Lemma run_request_resets (w : World) (code : list HostCall) :
  let w' := world_of (runCode code w) in
  returns (runCode code w) = true
  /\ current_state w' = START_STATE
  /\ inErrorState w' = false
  /\ grid_error w' = false
  /\ bluedogImage_cell w' = Some START_STATE
  /\ myInterpreter w' = None
  /\ heap w' = heap w
  /\ timers w' = remove_timer (runnerPid w) (timers w) ++ [begin_timer code w]
  /\ Forall (fun t => timer_id t <> runnerPid w)
       (remove_timer (runnerPid w) (timers w)).
Proof.
  rewrite runCode_eq. cbn [world_of returns].
  repeat split; [| apply remove_timer_gone].
  cbn. rewrite remove_timer_idem. reflexivity.
Qed.

(** What a timer callback other than the start of a run does when no handle
    is held: nothing to the host state. *)
Lemma leftover_inert cb u :
  is_begin cb = false -> myInterpreter u = None ->
  current_state (world_of (invoke cb u)) = current_state u
  /\ inErrorState (world_of (invoke cb u)) = inErrorState u
  /\ myInterpreter (world_of (invoke cb u)) = None.
Proof.
  intros Hb Hm. destruct cb as [code| |j]; [discriminate Hb | |]; cbn [invoke].
  - unfold runner, bind, get. rewrite Hm. cbn. auto.
  - unfold asyncDone, modify. cbn [world_of].
    destruct (heap u !! j); cbn; auto.
Qed.

(** After a reset and a request, in whatever state [w] they come, the
    position and the error flag have the values of [START_STATE], and the
    callbacks a run under way has pending (its [runner], the callback of
    its wait) do not change them when they fire afterwards.  The start
    callback of an earlier request is not among these: it runs that
    request's program. *)
Lemma leftovers_keep_start_state
    (w : World) (codeB : list HostCall) (leftovers : list Callback) :
  forallb (fun cb => negb (is_begin cb)) leftovers = true ->
  let wB := world_of (runCode codeB (world_of (resetState w))) in
  let w' := fold_left (fun u cb => world_of (invoke cb u)) leftovers wB in
  current_state wB = START_STATE /\ inErrorState wB = false
  /\ current_state w' = START_STATE /\ inErrorState w' = false
  /\ myInterpreter w' = None.
Proof.
  intros Hl. cbv zeta. rewrite resetState_eq. cbn [world_of].
  rewrite runCode_eq. cbn [world_of].
  set (wB := run_requested codeB (reset_world w)).
  assert (H0 : current_state wB = START_STATE /\ inErrorState wB = false
               /\ myInterpreter wB = None) by (repeat split).
  split; [apply H0 |]. split; [apply H0 |].
  revert H0. generalize wB. clear wB.
  induction leftovers as [|cb cbs IH]; intros u (Hc & He & Hm); cbn [fold_left].
  - auto.
  - cbn [forallb] in Hl. apply andb_prop in Hl as [Hcb Hl].
    apply negb_true_iff in Hcb.
    destruct (leftover_inert cb u Hcb Hm) as (Hc' & He' & Hm').
    apply (IH Hl). rewrite Hc', He'. auto.
Qed.

Lemma leftovers_keep_start_state_example :
  current_state blocked_world = {| x := 0; y := 1 |}
  /\ let wB := world_of (runCode (moves 1) (world_of (resetState blocked_world))) in
     let w' := fold_left (fun u cb => world_of (invoke cb u))
                 [AsyncDone 0; Runner] wB in
     current_state wB = START_STATE /\ inErrorState wB = false
     /\ current_state w' = START_STATE /\ inErrorState w' = false
     /\ myInterpreter w' = None.
Proof.
  split; [reflexivity |].
  apply (leftovers_keep_start_state blocked_world (moves 1)
           [AsyncDone 0; Runner]).
  reflexivity.
Qed.

(** ** The start of a run cannot be cancelled

    The timer [runCode] sets is not the one [resetStepUi] clears: its id is
    not kept.  A request that is reset before its start task has run is
    therefore still started, after the reset and after any request made in
    between. *)
Lemma remove_timer_app id ts us :
  remove_timer id (ts ++ us) = remove_timer id ts ++ remove_timer id us.
Proof.
  induction ts as [|t ts IH]; cbn; [reflexivity |].
  destruct (Nat.eqb (timer_id t) id); [exact IH | cbn; rewrite IH; reflexivity].
Qed.

Lemma start_timer_survives_reset w code :
  pid_fresh w ->
  In (begin_timer code w)
    (timers (world_of (resetState (world_of (runCode code w))))).
Proof.
  intros Hp. unfold pid_fresh in Hp. rewrite runCode_eq. cbn [world_of].
  rewrite resetState_eq. cbn. rewrite remove_timer_app. apply in_or_app.
  right. cbn.
  replace (Nat.eqb (nextTimerId w) (runnerPid w)) with false
    by (symmetry; apply Nat.eqb_neq; lia).
  left. reflexivity.
Qed.

(** C7 at its failing input.  Run A, three moves, is requested and then
    cancelled by a reset before its start timer has fired; run B, one move,
    is requested next.  The reset cannot clear A's start timer, whose id was
    never kept, so A runs after B's request has reset the host state: when
    B's start task comes, the position is the last cell and the error flag
    is set.  B's move is dropped and B ends in the error state on [(0,2)],
    where a run of B alone ends on [(0,1)] with the flag clear. *)
Theorem cancelled_run_seen_by_next_run :
  let requested :=
    run_events initial_world
      [ClickRun (moves 3); ClickReset; ClickRun (moves 1)] in
  let B_starts := dispatch requested TimerFires in
  let B_done := dispatch B_starts TimerFires in
  let B_alone := run_events initial_world [ClickRun (moves 1); TimerFires] in
  current_state requested = START_STATE /\ inErrorState requested = false
  /\ map timer_cb (timers requested)
     = [BeginExecution (moves 3); BeginExecution (moves 1)]
  /\ map timer_cb (timers B_starts) = [BeginExecution (moves 1)]
  /\ current_state B_starts = {| x := 0; y := 2 |}
  /\ inErrorState B_starts = true
  /\ timers B_done = []
  /\ current_state B_done = {| x := 0; y := 2 |}
  /\ inErrorState B_done = true
  /\ alerts B_done = [msg_too_far]
  /\ current_state B_alone = {| x := 0; y := 1 |}
  /\ inErrorState B_alone = false
  /\ alerts B_alone = [msg_no_goal].
Proof. vm_compute. repeat split. Qed.

(** C8 at its failing inputs.  Run, Reset, Run, the three clicks coming
    before the first start timer fires: the second request resets the host
    state, but the first request's start task then runs program A, so run B
    begins on [(0,1)] and its single move ends on the goal.  And when the
    two programs wait, each start task leaves a [runner] timer pending while
    [runnerPid] holds only the later one: the next request clears that one,
    the other [runner] stays pending, and it repeats the goal check of the
    run requested last. *)
Theorem run_begins_off_start_state :
  let requested :=
    run_events initial_world
      [ClickRun program_A; ClickReset; ClickRun program_B] in
  let B_starts := dispatch requested TimerFires in
  let B_done := dispatch B_starts TimerFires in
  let two_loops :=
    run_events initial_world
      [ClickRun two_waits; ClickReset; ClickRun two_waits;
       TimerFires; TimerFires] in
  let C_requested := run_events two_loops [ClickReset; ClickRun (moves 1)] in
  let C_done := run_events C_requested [TimerFires; TimerFires] in
  current_state requested = START_STATE
  /\ map timer_cb (timers B_starts) = [BeginExecution program_B]
  /\ current_state B_starts = {| x := 0; y := 1 |}
  /\ current_state B_done = GOAL_STATE
  /\ alerts B_done = [msg_no_goal; msg_goal]
  /\ map timer_cb (timers two_loops) = [AsyncDone 0; Runner; AsyncDone 1; Runner]
  /\ map timer_id (timers two_loops) = [3; 4; 5; 6]%nat
  /\ runnerPid two_loops = 6%nat
  /\ map timer_cb (timers C_requested)
     = [AsyncDone 0; Runner; AsyncDone 1; BeginExecution (moves 1)]
  /\ goalChecks C_requested = 0%nat
  /\ goalChecks C_done = 2%nat
  /\ alerts C_done = [msg_no_goal; msg_no_goal].
Proof. vm_compute. repeat split. Qed.

(** * The handle: what a slice does to the loop's own state

    A property [Q] of the handle and the interpreter objects that does not
    depend on the object [i] is kept by everything [runner] does when [i] is
    the handle. *)
Section LoopFrame.
Context (Q : option nat -> list Interpreter -> Prop) (i : nat).
Hypothesis Q_set : forall m h it, Q m h -> Q m (<[i := it]> h).

Let P (w : World) : Prop := Q (myInterpreter w) (heap w).

Lemma moveForward_loop : preserves P moveForward.
Proof using Type.
  intros w H. unfold moveForward, bind, get, modify, ret, window_alert.
  destruct (inErrorState w); [exact H |].
  destruct (_ <? _); cbn; [| exact H].
  unfold moveImage. destruct (cell_exists _); exact H.
Qed.

Lemma Interpreter_steps_loop code : preserves P (Interpreter_steps i code).
Proof using Q_set.
  induction code as [|c rest IH]; cbn [Interpreter_steps].
  - apply preserves_ret.
  - assert (Hset : forall it, preserves P (set_interpreter i it)).
    { intros it. apply preserves_modify. intros w H. apply Q_set, H. }
    destruct c as [|text|s];
      (apply preserves_bind; [apply Hset | intros _]).
    + apply preserves_bind; [apply moveForward_loop | intros _; exact IH].
    + apply preserves_bind; [| intros _; exact IH].
      apply preserves_modify. intros w H; exact H.
    + apply preserves_bind; [| intros _; apply preserves_ret].
      unfold waitForSeconds.
      apply preserves_bind; [intros w H; exact H | intros _].
      apply preserves_ret.
Qed.

Lemma runner_loop w :
  myInterpreter w = Some i -> P w -> P (world_of (runner w)).
Proof using Q_set.
  intros Hm H. unfold runner. unfold bind at 1. cbn [get]. rewrite Hm.
  revert H. generalize w. clear w Hm.
  apply preserves_bind.
  - unfold Interpreter_run. apply preserves_bind; [apply preserves_get |].
    intros h. destruct (h !! i) as [it|]; [| apply preserves_throw].
    destruct (paused_ it); [apply preserves_ret | apply Interpreter_steps_loop].
  - intros [|].
    + apply preserves_bind; [intros w H; exact H | intros pid].
      apply preserves_modify. intros w H; exact H.
    + intros w H. rewrite checkGoalReached_eq. exact H.
Qed.

End LoopFrame.

Lemma runner_touches_handle w j :
  program_at j (world_of (runner w)) <> program_at j w ->
  myInterpreter (world_of (runner w)) = Some j.
Proof.
  intros Hd. destruct (myInterpreter w) as [i|] eqn:Hm.
  - destruct (Nat.eq_dec j i) as [->|Hne].
    + apply (runner_loop (fun m _ => m = Some i) i); auto.
    + exfalso. apply Hd. unfold program_at. f_equal.
      apply (runner_loop (fun _ h => h !! j = heap w !! j) i); auto.
      intros _ h it Hh. rewrite list_lookup_insert_ne by auto. exact Hh.
  - exfalso. apply Hd. unfold runner, bind, get. rewrite Hm. reflexivity.
Qed.

Lemma beginExecution_handle code w :
  myInterpreter (world_of (beginExecution code w)) = Some (length (heap w))
  /\ length (heap (world_of (beginExecution code w))) = S (length (heap w)).
Proof.
  rewrite beginExecution_eq. split.
  - apply (runner_loop (fun m _ => m = Some (length (heap w)))
             (length (heap w))); auto.
  - apply (runner_loop (fun _ h => length h = S (length (heap w)))
             (length (heap w))).
    + intros _ h it Hh. rewrite length_insert. exact Hh.
    + reflexivity.
    + cbn. rewrite length_app. cbn. lia.
Qed.

Lemma beginExecution_touches_handle code w j :
  program_at j (world_of (beginExecution code w)) <> program_at j w ->
  myInterpreter (world_of (beginExecution code w)) = Some j.
Proof.
  intros Hd. destruct (beginExecution_handle code w) as [Hm _].
  destruct (Nat.eq_dec j (length (heap w))) as [->|Hne]; [exact Hm |].
  exfalso. apply Hd. unfold program_at. f_equal. rewrite beginExecution_eq.
  set (it := {| program := code; paused_ := false |}).
  transitivity ((heap w ++ [it]) !! j).
  - apply (runner_loop (fun _ h => h !! j = (heap w ++ [it]) !! j)
             (length (heap w))); auto.
    intros _ h it' Hh. rewrite list_lookup_insert_ne by auto. exact Hh.
  - destruct (Nat.lt_ge_cases j (length (heap w))) as [Hlt|Hge].
    + apply lookup_app_l. exact Hlt.
    + rewrite !lookup_ge_None_2; [reflexivity | lia |].
      rewrite length_app. cbn. lia.
Qed.

Lemma dispatch_touches_handle w e j :
  program_at j (dispatch w e) <> program_at j w ->
  myInterpreter (dispatch w e) = Some j.
Proof.
  destruct e as [code| | |dt]; cbn [dispatch].
  - destruct (runButton_disabled w); [intros H; now contradiction H |].
    rewrite runCode_eq. intros H. now contradiction H.
  - rewrite resetState_eq. intros H. now contradiction H.
  - destruct (next_timer (timers w)) as [t|]; [| intros H; now contradiction H].
    set (w0 := with_now _ _).
    change (program_at j w) with (program_at j w0).
    destruct (timer_cb t) as [code| |k]; cbn [invoke].
    + apply beginExecution_touches_handle.
    + apply runner_touches_handle.
    + intros Hd. exfalso. apply Hd. unfold asyncDone, modify. cbn [world_of].
      unfold program_at. destruct (heap w0 !! k) as [it|] eqn:Hk; [| reflexivity].
      cbn [heap with_heap]. destruct (Nat.eq_dec j k) as [->|Hne].
      * rewrite (heap_set_lookup _ _ _ _ Hk), Hk. reflexivity.
      * rewrite list_lookup_insert_ne by auto. reflexivity.
  - intros H. now contradiction H.
Qed.

Lemma next_timer_In ts u : next_timer ts = Some u -> In u ts.
Proof.
  revert u. induction ts as [|t ts IH]; intros u; cbn [next_timer].
  - discriminate.
  - destruct (next_timer ts) as [v|].
    + destruct (timer_due v <? timer_due t); intros [= <-];
        [right; apply IH; reflexivity | left; reflexivity].
    + intros [= <-]. left; reflexivity.
Qed.

Lemma next_timer_head t rest :
  Forall (fun u => timer_due t <= timer_due u) rest ->
  next_timer (t :: rest) = Some t.
Proof.
  intros H. cbn [next_timer]. destruct (next_timer rest) as [u|] eqn:E;
    [| reflexivity].
  apply next_timer_In, list_elem_of_In in E. rewrite Forall_forall in H.
  specialize (H u E). destruct (timer_due u <? timer_due t) eqn:El;
    [| reflexivity].
  apply Z.ltb_lt in El. lia.
Qed.

(** The timers the first slice of a run adds are not due before the slice
    ran. *)
Lemma beginExecution_timers code w :
  on_grid w -> flag_at_edge w ->
  exists extras,
    timers (world_of (beginExecution code w)) = timers w ++ extras
    /\ Forall (fun u => now w <= timer_due u) extras.
Proof.
  intros Hg He. rewrite beginExecution_eq.
  set (i := length (heap w)). set (wA := with_myInterpreter _ _).
  assert (Hh : heap wA !! i = Some {| program := code; paused_ := false |})
    by (apply list_lookup_middle; reflexivity).
  pose proof (remaining_lookup _ _ _ Hh) as Hr. cbn [program] in Hr.
  rewrite <- Hr in Hh.
  destruct (runner_unpaused i wA eq_refl Hg He Hh) as (b & w1 & Hpost & Hrun).
  rewrite Hrun. cbn [world_of]. destruct Hpost.
  change (timers wA) with (timers w) in *. change (now wA) with (now w) in *.
  destruct b; cbv beta iota in *.
  - destruct sp_timers0 as (s & Et & _).
    eexists. split.
    + unfold rescheduled. cbn [timers with_runnerPid with_timers].
      rewrite Et, <- app_assoc. reflexivity.
    + repeat constructor; cbn; lia.
  - destruct sp_timers0 as (Et & _). exists [].
    split; [| constructor].
    unfold goal_checked. cbn [timers with_alerts with_goalChecks].
    rewrite Et, app_nil_r. reflexivity.
Qed.

(** [runnerPid] is always an id that [setTimeout] has handed out. *)
Lemma pid_fresh_steps i code : preserves pid_fresh (Interpreter_steps i code).
Proof.
  induction code as [|c rest IH]; cbn [Interpreter_steps].
  - apply preserves_ret.
  - assert (Hset : forall it, preserves pid_fresh (set_interpreter i it))
      by (intros it w H; exact H).
    destruct c as [|text|s];
      (apply preserves_bind; [apply Hset | intros _]).
    + apply preserves_bind; [| intros _; exact IH].
      intros w H.
      unfold moveForwardWrapper, moveForward, bind, get, modify, ret,
        window_alert.
      destruct (inErrorState w); [exact H |].
      destruct (_ <? _); cbn; [| exact H].
      unfold moveImage. destruct (cell_exists _); exact H.
    + apply preserves_bind; [intros w H; exact H | intros _; exact IH].
    + apply preserves_bind; [| intros _; apply preserves_ret].
      intros w H. unfold pid_fresh in *. cbn. lia.
Qed.

Lemma pid_fresh_runner : preserves pid_fresh runner.
Proof.
  unfold runner. apply preserves_bind; [apply preserves_get |].
  intros [i|]; [| apply preserves_ret].
  apply preserves_bind.
  - unfold Interpreter_run. apply preserves_bind; [apply preserves_get |].
    intros h. destruct (h !! i) as [it|]; [| apply preserves_throw].
    destruct (paused_ it); [apply preserves_ret | apply pid_fresh_steps].
  - intros [|]; intros w H.
    + unfold pid_fresh. cbn. lia.
    + rewrite checkGoalReached_eq. exact H.
Qed.

Lemma pid_fresh_dispatch w e : pid_fresh w -> pid_fresh (dispatch w e).
Proof.
  intros H. destruct e as [code| | |dt]; cbn [dispatch].
  - destruct (runButton_disabled w); [exact H |].
    rewrite runCode_eq. unfold pid_fresh in *. cbn. lia.
  - rewrite resetState_eq. exact H.
  - destruct (next_timer (timers w)) as [t|]; [| exact H].
    destruct (timer_cb t) as [code| |k]; cbn [invoke].
    + rewrite beginExecution_eq. apply pid_fresh_runner. exact H.
    + apply pid_fresh_runner. exact H.
    + unfold asyncDone, modify. cbn [world_of].
      match goal with |- context [heap ?v !! k] => destruct (heap v !! k) end;
        exact H.
  - exact H.
Qed.

Lemma pid_fresh_reachable w : reachable w -> pid_fresh w.
Proof.
  induction 1 as [|w e _ IH]; [| apply pid_fresh_dispatch, IH].
  unfold pid_fresh. cbn. lia.
Qed.

(** Two run requests in a row, then their two start tasks: the second
    interpreter replaces the first as the handle. *)
Lemma two_requests w code1 code2 :
  timers w = [] -> pid_fresh w ->
  let w2 := run_requested code2 (run_requested code1 w) in
  let w' := run_events w2 [TimerFires; TimerFires] in
  myInterpreter w2 = None
  /\ map timer_cb (timers w2) = [BeginExecution code1; BeginExecution code2]
  /\ myInterpreter w' = Some (S (length (heap w)))
  /\ length (heap w') = S (S (length (heap w))).
Proof.
  intros Ht Hp w2 w'. unfold pid_fresh in Hp.
  assert (Hne : Nat.eqb (nextTimerId w) (runnerPid w) = false)
    by (apply Nat.eqb_neq; lia).
  assert (E2 : timers w2
               = [begin_timer code1 w; begin_timer code2 (run_requested code1 w)]).
  { unfold w2. cbn. rewrite Ht. cbn. rewrite Hne. cbn. rewrite Hne.
    reflexivity. }
  split; [reflexivity |]. split; [rewrite E2; reflexivity |].
  unfold w'. cbn [run_events fold_left].
  (* the first start task *)
  assert (D1 : exists w3,
             dispatch w2 TimerFires = world_of (beginExecution code1 w3)
             /\ timers w3 = [begin_timer code2 (run_requested code1 w)]
             /\ on_grid w3 /\ flag_at_edge w3
             /\ now w + 1 <= now w3 /\ length (heap w3) = length (heap w)).
  { set (B1 := begin_timer code1 w) in *.
    set (B2 := begin_timer code2 (run_requested code1 w)) in *.
    assert (Hd : (timer_due B2 <? timer_due B1) = false)
      by (cbn; apply Z.ltb_irrefl).
    assert (Hi : Nat.eqb (timer_id B2) (timer_id B1) = false)
      by (apply Nat.eqb_neq; cbn; lia).
    exists (with_now (Z.max (now w2) (timer_due B1)) (with_timers [B2] w2)).
    split.
    - unfold dispatch. rewrite E2. cbn [next_timer]. rewrite Hd.
      cbn [remove_timer]. rewrite Nat.eqb_refl, Hi. reflexivity.
    - split; [reflexivity |]. split; [reflexivity |].
      split; [intros H; discriminate H |].
      split; [cbn; lia | reflexivity]. }
  destruct D1 as (w3 & -> & E3 & Hg3 & He3 & Hn3 & Hl3).
  destruct (beginExecution_timers code1 w3 Hg3 He3) as (extras & E4 & Hx).
  destruct (beginExecution_handle code1 w3) as [_ Hl4].
  set (w4 := world_of (beginExecution code1 w3)) in *.
  (* the second start task *)
  unfold dispatch. rewrite E4, E3. cbn [app].
  rewrite next_timer_head.
  - cbn [begin_timer timer_cb invoke].
    destruct (beginExecution_handle code2
                (with_now
                   (Z.max (now w4)
                      (timer_due (begin_timer code2 (run_requested code1 w))))
                   (with_timers
                      (remove_timer
                         (timer_id (begin_timer code2 (run_requested code1 w)))
                         (begin_timer code2 (run_requested code1 w) :: extras))
                      w4)))
      as [Hm5 Hl5].
    cbn [heap with_now with_timers] in Hm5, Hl5.
    cbn [begin_timer timer_id timer_due] in *.
    rewrite Hm5, Hl5, Hl4, Hl3. split; reflexivity.
  - eapply Forall_impl; [exact Hx |]. intros u Hu. cbn in *. lia.
Qed.

(** Two run requests in a row, as [runCode] leaves them: once the two start
    tasks have run there is one handle, the interpreter of the second
    request, and both interpreters have been built. *)
Lemma two_requests_one_handle (w : World) (code1 code2 : list HostCall) :
  reachable w -> timers w = [] ->
  let w2 := world_of (runCode code2 (world_of (runCode code1 w))) in
  let w' := run_events w2 [TimerFires; TimerFires] in
  myInterpreter w2 = None
  /\ myInterpreter w' = Some (S (length (heap w)))
  /\ length (heap w') = S (S (length (heap w))).
Proof.
  intros Hr Ht. rewrite !runCode_eq. cbn [world_of].
  destruct (two_requests w code1 code2 Ht (pid_fresh_reachable w Hr))
    as (H1 & _ & H2 & H3).
  split; [exact H1 |]. split; [exact H2 | exact H3].
Qed.


(** * Further properties of the script *)

(** ** The page as events leave it *)

Lemma dispatch_task w e : dispatch w e = world_of (task w e).
Proof.
  destruct e as [code| | |dt]; cbn [dispatch task]; try reflexivity.
  - destruct (runButton_disabled w); reflexivity.
  - destruct (next_timer (timers w)); reflexivity.
Qed.

Lemma well_formed_moveForward w :
  well_formed w ->
  exists w', moveForward w = Normal tt w' /\ well_formed w'
             /\ heap w' = heap w /\ myInterpreter w' = myInterpreter w.
Proof.
  intros Hw. pose proof Hw as [Hg He Hd Hb Hc Hh].
  rewrite (moveForward_on_grid w Hg).
  eexists. split; [reflexivity |].
  pose proof Hg as Hg'. apply cell_exists_iff in Hg'.
  unfold flag_at_edge in He. unfold COLS, ROWS in *.
  destruct (inErrorState w) eqn:Ef.
  - split; [exact Hw | split; reflexivity].
  - destruct (y (current_state w) <? 3 - 1) eqn:Ey.
    + apply Z.ltb_lt in Ey. split; [| split; reflexivity].
      constructor; cbn; try assumption; try reflexivity.
      * apply cell_exists_iff; cbn. unfold COLS, ROWS. lia.
      * unfold flag_at_edge; cbn. rewrite Ef. discriminate.
      * rewrite Ef. exact Hc.
    + apply Z.ltb_ge in Ey. split; [| split; reflexivity].
      constructor; cbn; try assumption; try reflexivity.
      unfold flag_at_edge; cbn. unfold COLS. lia.
Qed.

Lemma well_formed_set_interpreter i it w :
  well_formed w -> well_formed (with_heap (<[i := it]> (heap w)) w).
Proof.
  intros [Hg He Hd Hb Hc Hh]. constructor; try assumption.
  cbn. intros j Hj. rewrite length_insert. apply Hh, Hj.
Qed.

Lemma well_formed_steps i code :
  forall w,
    well_formed w ->
    exists b w', Interpreter_steps i code w = Normal b w' /\ well_formed w'
                 /\ myInterpreter w' = myInterpreter w.
Proof.
  induction code as [|c rest IH]; intros w Hw.
  - exists false, w. split; [reflexivity | split; [exact Hw | reflexivity]].
  - destruct c as [|text|s]; cbn [Interpreter_steps];
      unfold bind at 1; unfold set_interpreter at 1; cbn [modify];
      set (w1 := with_heap _ w);
      assert (Hw1 : well_formed w1) by (apply well_formed_set_interpreter, Hw).
    + unfold bind at 1. unfold moveForwardWrapper.
      destruct (well_formed_moveForward w1 Hw1) as (w2 & -> & Hw2 & _ & Hm2).
      destruct (IH w2 Hw2) as (b & w' & Hrun & Hw' & Hm').
      exists b, w'. split; [exact Hrun | split; [exact Hw' |]].
      rewrite Hm', Hm2. reflexivity.
    + unfold bind at 1. unfold wrapperAlert at 1. cbn [modify].
      match goal with |- context [Interpreter_steps i rest ?v] =>
        set (w2 := v) end.
      assert (Hw2 : well_formed w2) by (destruct Hw1; constructor; assumption).
      destruct (IH w2 Hw2) as (b & w' & Hrun & Hw' & Hm').
      exists b, w'. split; [exact Hrun | split; [exact Hw' | exact Hm']].
    + unfold bind, waitForSeconds, setTimeout, ret.
      eexists true, _. split; [reflexivity |]. split; [| reflexivity].
      destruct Hw1; constructor; assumption.
Qed.

Lemma well_formed_runner w :
  well_formed w -> exists w', runner w = Normal tt w' /\ well_formed w'.
Proof.
  intros Hw. unfold runner. unfold bind at 1. cbn [get].
  destruct (myInterpreter w) as [i|] eqn:Hm; [| exists w; split; [reflexivity | exact Hw]].
  destruct (lookup_lt_is_Some_2 (heap w) i (wf_handle w Hw i Hm)) as [it Hit].
  unfold bind at 1. unfold Interpreter_run. unfold bind at 1. cbn [get].
  rewrite Hit. destruct (paused_ it).
  - eexists. split; [reflexivity |].
    destruct Hw; constructor; assumption.
  - destruct (well_formed_steps i (program it) w Hw)
      as (b & w1 & -> & Hw1 & _).
    destruct b.
    + eexists. split; [reflexivity |].
      destruct Hw1; constructor; assumption.
    + rewrite checkGoalReached_eq. eexists. split; [reflexivity |].
      destruct Hw1; constructor; assumption.
Qed.

Lemma well_formed_invoke cb w :
  well_formed w -> exists w', invoke cb w = Normal tt w' /\ well_formed w'.
Proof.
  intros Hw. destruct cb as [code| |k]; cbn [invoke].
  - rewrite beginExecution_eq. apply well_formed_runner.
    destruct Hw as [Hg He Hd Hb Hc Hh]. constructor; try assumption.
    cbn. intros i [= <-]. rewrite length_app. cbn. lia.
  - apply well_formed_runner, Hw.
  - unfold asyncDone, modify. eexists. split; [reflexivity |].
    destruct (heap w !! k); [apply well_formed_set_interpreter |]; exact Hw.
Qed.

Lemma well_formed_reset w : well_formed (reset_world w).
Proof.
  constructor; try reflexivity.
  - intros H; discriminate H.
  - intros i H; discriminate H.
Qed.

Lemma well_formed_task w e :
  well_formed w ->
  returns (task w e) = true /\ well_formed (dispatch w e).
Proof.
  intros Hw. rewrite dispatch_task.
  destruct e as [code| | |dt]; cbn [task].
  - destruct (runButton_disabled w); [split; [reflexivity | exact Hw] |].
    rewrite runCode_eq. split; [reflexivity |].
    cbn [world_of]. pose proof (well_formed_reset w) as [Hg He Hd Hb Hc Hh].
    constructor; try assumption.
  - rewrite resetState_eq. split; [reflexivity | apply well_formed_reset].
  - destruct (next_timer (timers w)) as [t|]; [| split; [reflexivity | exact Hw]].
    match goal with |- context [invoke _ ?v] => set (w0 := v) end.
    assert (Hw0 : well_formed w0) by (destruct Hw; constructor; assumption).
    destruct (well_formed_invoke (timer_cb t) w0 Hw0) as (w' & -> & Hw').
    split; [reflexivity | exact Hw'].
  - split; [reflexivity |]. destruct Hw; constructor; assumption.
Qed.

Lemma reachable_well_formed w : reachable w -> well_formed w.
Proof.
  induction 1 as [|w e _ IH].
  - apply (well_formed_reset declared_world).
  - apply well_formed_task, IH.
Qed.

(** X1.  The picture shows the state: in every reachable world the dog's
    image is on the cell of [current_state], the bus's image is on the goal
    cell, and the grid carries the class "error" exactly when
    [inErrorState] is set. *)
Theorem picture_shows_state (w : World) :
  reachable w ->
  bluedogImage_cell w = Some (current_state w)
  /\ busImage_cell w = Some GOAL_STATE
  /\ grid_error w = inErrorState w.
Proof.
  intros Hr. destruct (reachable_well_formed w Hr).
  split; [assumption |]. split; assumption.
Qed.

Lemma picture_shows_state_witness :
  bluedogImage_cell blocked_world = Some (current_state blocked_world)
  /\ busImage_cell blocked_world = Some GOAL_STATE
  /\ grid_error blocked_world = inErrorState blocked_world.
Proof.
  apply (picture_shows_state blocked_world).
  unfold blocked_world. cbn [run_events fold_left].
  repeat apply reachable_dispatch. apply reachable_initial.
Defined.

(** X2.  No task of a reachable page throws: the click listeners and every
    timer callback return normally, because [moveImage] is only ever asked
    for a cell that exists and the handle always refers to an interpreter
    that was built. *)
Theorem no_task_throws (w : World) (e : Event) :
  reachable w -> returns (task w e) = true.
Proof.
  intros Hr. apply well_formed_task, reachable_well_formed, Hr.
Qed.

Lemma no_task_throws_witness :
  returns (task blocked_world TimerFires) = true.
Proof.
  apply (no_task_throws blocked_world TimerFires).
  unfold blocked_world. cbn [run_events fold_left].
  repeat apply reachable_dispatch. apply reachable_initial.
Defined.

(** X3.  The error state is only ever entered from the goal cell: in every
    reachable world in which [inErrorState] is set, the character stands on
    [GOAL_STATE]. *)
Theorem error_state_on_goal_cell (w : World) :
  reachable w -> inErrorState w = true -> current_state w = GOAL_STATE.
Proof.
  intros Hr Hf. destruct (reachable_well_formed w Hr) as [_ He _ _ _ _].
  assert (Hx : x (current_state w) = x START_STATE)
    by (apply (reachable_keeps (fun p => x p = x START_STATE)); auto).
  specialize (He Hf). destruct (current_state w) as [px py].
  cbn in *. unfold COLS in He. subst. reflexivity.
Qed.

Lemma error_state_on_goal_cell_witness :
  current_state overshoot_world = GOAL_STATE.
Proof.
  apply (error_state_on_goal_cell overshoot_world); [| reflexivity].
  unfold overshoot_world. cbn [run_events fold_left].
  repeat apply reachable_dispatch. apply reachable_initial.
Defined.

(** ** What a timer task leaves alone

    A property of the world that [moveForward] keeps and that does not
    depend on the loop's own variables, the timers, the output area or the
    messages is kept by every timer task. *)
Section TaskFrame.
Context (P : World -> Prop).
Hypothesis P_move : preserves P moveForward.
Hypothesis P_heap : forall w h, P w -> P (with_heap h w).
Hypothesis P_handle : forall w v, P w -> P (with_myInterpreter v w).
Hypothesis P_pid : forall w v, P w -> P (with_runnerPid v w).
Hypothesis P_timers : forall w ts, P w -> P (with_timers ts w).
Hypothesis P_next : forall w n, P w -> P (with_nextTimerId n w).
Hypothesis P_now : forall w t, P w -> P (with_now t w).
Hypothesis P_output : forall w v, P w -> P (with_outputArea_value v w).
Hypothesis P_alerts : forall w v, P w -> P (with_alerts v w).
Hypothesis P_checks : forall w n, P w -> P (with_goalChecks n w).

Lemma setTimeout_frame cb delay : preserves P (setTimeout cb delay).
Proof using P_timers P_next.
  intros w H. unfold setTimeout. cbn [world_of]. apply P_timers, P_next, H.
Qed.

Lemma Interpreter_steps_frame i code : preserves P (Interpreter_steps i code).
Proof using P_move P_heap P_timers P_next P_output.
  induction code as [|c rest IH]; cbn [Interpreter_steps].
  - apply preserves_ret.
  - assert (Hset : forall it, preserves P (set_interpreter i it))
      by (intros it w H; apply P_heap, H).
    destruct c as [|text|s];
      (apply preserves_bind; [apply Hset | intros _]).
    + apply preserves_bind; [exact P_move | intros _; exact IH].
    + apply preserves_bind; [| intros _; exact IH].
      intros w H. apply P_output, H.
    + apply preserves_bind; [| intros _; apply preserves_ret].
      unfold waitForSeconds.
      apply preserves_bind; [apply setTimeout_frame | intros _].
      apply preserves_ret.
Qed.

Lemma runner_frame : preserves P runner.
Proof using P_move P_heap P_pid P_timers P_next P_output P_alerts P_checks.
  unfold runner. apply preserves_bind; [apply preserves_get |].
  intros [i|]; [| apply preserves_ret].
  apply preserves_bind.
  - unfold Interpreter_run. apply preserves_bind; [apply preserves_get |].
    intros h. destruct (h !! i) as [it|]; [| apply preserves_throw].
    destruct (paused_ it); [apply preserves_ret | apply Interpreter_steps_frame].
  - intros [|].
    + apply preserves_bind; [apply setTimeout_frame | intros pid].
      intros w H. apply P_pid, H.
    + intros w H. rewrite checkGoalReached_eq. apply P_alerts, P_checks, H.
Qed.

Lemma invoke_frame cb : preserves P (invoke cb).
Proof using P_move P_heap P_handle P_pid P_timers P_next P_output P_alerts
  P_checks.
  destruct cb as [code| |k]; cbn [invoke].
  - intros w H. rewrite beginExecution_eq. apply runner_frame.
    apply P_handle, P_heap, H.
  - apply runner_frame.
  - intros w H. unfold asyncDone, modify. cbn [world_of].
    destruct (heap w !! k); [apply P_heap |]; exact H.
Qed.

Lemma timer_fires_frame w : P w -> P (dispatch w TimerFires).
Proof using P_move P_heap P_handle P_pid P_timers P_next P_now P_output
  P_alerts P_checks.
  intros H. cbn [dispatch].
  destruct (next_timer (timers w)) as [t|]; [| exact H].
  apply invoke_frame, P_now, P_timers, H.
Qed.

End TaskFrame.

Lemma moveForward_keeps_flag :
  preserves (fun w => inErrorState w = true) moveForward.
Proof.
  intros w H. unfold moveForward, bind, get. rewrite H. exact H.
Qed.

Lemma moveForward_keeps_button b :
  preserves (fun w => runButton_disabled w = b) moveForward.
Proof.
  intros w H. unfold moveForward, bind, get, modify, ret, window_alert.
  destruct (inErrorState w); [exact H |].
  destruct (_ <? _); cbn; [| exact H].
  unfold moveImage. destruct (cell_exists _); exact H.
Qed.

(** X4.  A timer task never undoes a move and never leaves the error state:
    after any timer task the column is at least what it was, the row is the
    same, and an error flag that was set is still set.  Only [resetState]
    (the Reset button, or a run request) takes the character back. *)
Theorem timer_task_never_goes_back (w : World) :
  let w' := dispatch w TimerFires in
  y (current_state w) <= y (current_state w')
  /\ x (current_state w') = x (current_state w)
  /\ (inErrorState w = true -> inErrorState w' = true).
Proof.
  cbv zeta. split; [| split].
  - assert (H : forall u, y (current_state w) <= y (current_state u) ->
                  y (current_state w) <= y (current_state (dispatch u TimerFires))).
    { intros u Hu. cbn [dispatch].
      destruct (next_timer (timers u)) as [t|]; [| exact Hu].
      apply (invoke_keeps (fun p => y (current_state w) <= y p)); [| exact Hu].
      intros p Hp _. cbn. lia. }
    apply H. lia.
  - assert (H : forall u, x (current_state u) = x (current_state w) ->
                  x (current_state (dispatch u TimerFires)) = x (current_state w)).
    { intros u Hu. cbn [dispatch].
      destruct (next_timer (timers u)) as [t|]; [| exact Hu].
      apply (invoke_keeps (fun p => x p = x (current_state w))); [| exact Hu].
      intros p Hp _. exact Hp. }
    apply H. reflexivity.
  - apply (timer_fires_frame (fun u => inErrorState u = true));
      auto using moveForward_keeps_flag.
Qed.

Lemma timer_task_never_goes_back_witness :
  inErrorState overshoot_world = true
  /\ inErrorState (dispatch overshoot_world TimerFires) = true.
Proof.
  split; [reflexivity |].
  apply (proj2 (proj2 (timer_task_never_goes_back overshoot_world))).
  reflexivity.
Defined.

(** X5.  A timer task never touches the Run button: once [runCode] has
    disabled it, no start task, poll, wait callback or completion enables it
    again; only [resetStepUi] does. *)
Theorem timer_task_keeps_button (w : World) (n : nat) :
  runButton_disabled (Nat.iter n (fun u => dispatch u TimerFires) w)
  = runButton_disabled w.
Proof.
  induction n as [|n IH]; [reflexivity |].
  rewrite Nat.iter_succ.
  apply (timer_fires_frame (fun u => runButton_disabled u = runButton_disabled w));
    auto using moveForward_keeps_button.
Qed.

(** ** Resets compose *)

(** X6.  [resetState] is idempotent: a second reset in a row changes
    nothing, whatever the world the first one was called in. *)
Theorem resetState_idempotent (w : World) :
  world_of (resetState (world_of (resetState w))) = world_of (resetState w)
  /\ run_events w [ClickReset; ClickReset] = dispatch w ClickReset.
Proof.
  assert (H : world_of (resetState (world_of (resetState w)))
              = world_of (resetState w)).
  { rewrite !resetState_eq. cbn [world_of]. unfold reset_world. cbn.
    rewrite remove_timer_idem. reflexivity. }
  split; [exact H |]. cbn [run_events fold_left dispatch]. exact H.
Qed.

(** X7.  A run request absorbs a reset made just before it: Reset followed
    by Run leaves the page exactly as Run alone does, because [runCode]
    starts with [resetState] itself. *)
Theorem runCode_absorbs_reset (w : World) (code : list HostCall) :
  world_of (runCode code (world_of (resetState w))) = world_of (runCode code w)
  /\ run_events w [ClickReset; ClickRun code] = world_of (runCode code w).
Proof.
  assert (H : world_of (runCode code (world_of (resetState w)))
              = world_of (runCode code w)).
  { rewrite !runCode_eq, resetState_eq. cbn [world_of].
    unfold run_requested, reset_world, begin_timer. cbn.
    rewrite !remove_timer_idem. reflexivity. }
  split; [exact H |].
  cbn [run_events fold_left dispatch].
  change (runButton_disabled (world_of (resetState w))) with false.
  exact H.
Qed.

(** ** What a run shows *)

Lemma string_append_assoc (a b c : string) :
  String.append (String.append a b) c = String.append a (String.append b c).
Proof. induction a as [|ch a IH]; cbn; [reflexivity | rewrite IH; reflexivity]. Qed.

Lemma string_append_nil_r (a : string) : String.append a EmptyString = a.
Proof. induction a as [|ch a IH]; cbn; [reflexivity | rewrite IH; reflexivity]. Qed.

Lemma overshoot_due_nil w : on_grid w -> overshoot_due [] w = [].
Proof.
  intros Hg. apply cell_exists_iff in Hg. unfold overshoot_due.
  destruct (inErrorState w); [reflexivity |]. cbn [count_moves].
  destruct (_ <? _) eqn:E; [| reflexivity].
  apply Z.ltb_lt in E. lia.
Qed.

Lemma verdict_nil w :
  on_grid w -> verdict [] w = goal_messages w.
Proof.
  intros Hg. apply cell_exists_iff in Hg.
  unfold verdict, goal_messages, outcome_err, outcome_y. cbn [count_moves].
  replace (COLS - 1 <? y (current_state w) + 0) with false
    by (symmetry; apply Z.ltb_ge; lia).
  rewrite orb_false_r.
  replace (Z.min (y (current_state w) + 0) (COLS - 1))
    with (y (current_state w)) by lia.
  reflexivity.
Qed.

Lemma verdict_slice i code w b w' :
  slice_post i code w b w' -> verdict (remaining i w') w' = verdict code w.
Proof.
  intros []. unfold verdict. rewrite sp_err0, sp_y0, sp_x0. reflexivity.
Qed.

(** The messages and the output of one slice. *)
Lemma Interpreter_steps_trace i code :
  forall w,
    on_grid w -> flag_at_edge w ->
    heap w !! i = Some {| program := code; paused_ := false |} ->
    exists b w',
      Interpreter_steps i code w = Normal b w'
      /\ alerts w' ++ overshoot_due (remaining i w') w'
         = alerts w ++ overshoot_due code w
      /\ output_due i w' = String.append (outputArea_value w) (rendered code).
Proof.
  induction code as [|c rest IH]; intros w Hg He Hh.
  - exists false, w. split; [reflexivity |]. unfold output_due.
    rewrite (remaining_lookup _ _ _ Hh). split; reflexivity.
  - destruct c as [|text|s]; cbn [Interpreter_steps];
      unfold bind at 1; unfold set_interpreter at 1; cbn [modify];
      set (w1 := with_heap _ w).
    + (* moveForward *)
      assert (Hg1 : on_grid w1) by exact Hg.
      unfold bind at 1. unfold moveForwardWrapper.
      rewrite (moveForward_on_grid w1 Hg1).
      apply cell_exists_iff in Hg. unfold COLS, ROWS in Hg.
      assert (Hh1 : heap w1 !! i = Some {| program := rest; paused_ := false |})
        by (eapply heap_set_lookup, Hh).
      pose proof (count_moves_nonneg rest) as Hc.
      unfold flag_at_edge in He.
      destruct (inErrorState w1) eqn:Ee; [| destruct (_ <? _) eqn:Ey].
      * destruct (IH w1 Hg1 He Hh1) as (b & w' & Hrun & Ha & Ho).
        exists b, w'. split; [exact Hrun |]. rewrite Ha, Ho.
        unfold overshoot_due. cbn in Ee |- *. rewrite Ee. split; reflexivity.
      * apply Z.ltb_lt in Ey. cbn in Ey, Ee. unfold COLS in Ey.
        match goal with |- context [Interpreter_steps i rest ?v] =>
          set (w2 := v) end.
        assert (Hg2 : on_grid w2).
        { apply cell_exists_iff; cbn. unfold COLS, ROWS. lia. }
        assert (He2 : flag_at_edge w2).
        { unfold flag_at_edge; cbn. rewrite Ee. discriminate. }
        destruct (IH w2 Hg2 He2 Hh1) as (b & w' & Hrun & Ha & Ho).
        exists b, w'. split; [exact Hrun |]. rewrite Ha, Ho.
        unfold overshoot_due. cbn. rewrite Ee, Z.add_assoc. split; reflexivity.
      * apply Z.ltb_ge in Ey. cbn in Ey, Ee. unfold COLS in Ey.
        match goal with |- context [Interpreter_steps i rest ?v] =>
          set (w2 := v) end.
        assert (Hg2 : on_grid w2) by exact Hg1.
        assert (He2 : flag_at_edge w2).
        { unfold flag_at_edge; cbn. unfold COLS. lia. }
        destruct (IH w2 Hg2 He2 Hh1) as (b & w' & Hrun & Ha & Ho).
        exists b, w'. split; [exact Hrun |]. rewrite Ha, Ho.
        unfold overshoot_due. cbn. rewrite Ee.
        replace (COLS - 1 <? y (current_state w) + (1 + count_moves rest))
          with true by (symmetry; apply Z.ltb_lt; unfold COLS; lia).
        rewrite app_nil_r. split; reflexivity.
    + (* alert *)
      unfold bind at 1. unfold wrapperAlert at 1. cbn [modify].
      match goal with |- context [Interpreter_steps i rest ?v] =>
        set (w2 := v) end.
      assert (Hh1 : heap w2 !! i = Some {| program := rest; paused_ := false |})
        by (eapply heap_set_lookup, Hh).
      destruct (IH w2 Hg He Hh1) as (b & w' & Hrun & Ha & Ho).
      exists b, w'. split; [exact Hrun |]. rewrite Ha, Ho.
      split; [reflexivity |]. cbn. apply string_append_assoc.
    + (* waitForSeconds *)
      unfold bind, waitForSeconds, setTimeout, ret.
      eexists true, _. split; [reflexivity |].
      assert (Hh1 : heap w1 !! i = Some {| program := rest; paused_ := true |})
        by (eapply heap_set_lookup, Hh).
      pose proof (remaining_lookup _ _ _ Hh1) as Hr. cbn in Hr.
      unfold output_due.
      match goal with |- context [remaining i ?v] =>
        replace (remaining i v) with rest
          by (symmetry; rewrite <- Hr; apply remaining_heap; reflexivity)
      end.
      split; reflexivity.
Qed.

Lemma runner_slice_trace i w :
  myInterpreter w = Some i -> on_grid w -> flag_at_edge w ->
  heap w !! i = Some {| program := remaining i w; paused_ := false |} ->
  timers w = [] ->
  let w' := world_of (runner w) in
  alerts_due i w'
  = alerts w ++ overshoot_due (remaining i w) w ++ verdict (remaining i w) w
  /\ output_due i w' = output_due i w.
Proof.
  intros Hm Hg He Hh E.
  destruct (Interpreter_steps_trace i _ w Hg He Hh) as (b & w1 & Hrun & Ha & Ho).
  destruct (Interpreter_steps_slice i _ w Hg He Hh) as (b' & w1' & Hrun' & Hpost).
  rewrite Hrun in Hrun'. injection Hrun' as <- <-.
  pose proof (verdict_slice _ _ _ _ _ Hpost) as Hv.
  assert (Hr : runner w
               = Normal tt (if b then rescheduled w1 else goal_checked w1)).
  { rewrite (runner_eq i w _ Hm Hh eq_refl). cbn [program].
    unfold bind at 1. rewrite Hrun.
    destruct b; [reflexivity | apply checkGoalReached_eq]. }
  cbv zeta. rewrite Hr. cbn [world_of]. destruct Hpost.
  destruct b; cbv beta iota in *.
  - destruct sp_timers0 as (s & Et & _). rewrite E in Et. cbn [app] in Et.
    assert (Er : remaining i (rescheduled w1) = remaining i w1)
      by (apply remaining_heap; reflexivity).
    unfold alerts_due, output_due. rewrite Er.
    change (alerts (rescheduled w1)) with (alerts w1).
    change (outputArea_value (rescheduled w1)) with (outputArea_value w1).
    change (overshoot_due (remaining i w1) (rescheduled w1))
      with (overshoot_due (remaining i w1) w1).
    change (verdict (remaining i w1) (rescheduled w1))
      with (verdict (remaining i w1) w1).
    change (timers (rescheduled w1)) with (timers w1 ++ [runner_timer w1]).
    rewrite Et. cbn [app]. rewrite Hv, app_assoc, Ha, <- app_assoc.
    split; [reflexivity | exact Ho].
  - destruct sp_timers0 as (Et & _ & Eb). rewrite E in Et.
    assert (Er : remaining i (goal_checked w1) = remaining i w1)
      by (apply remaining_heap; reflexivity).
    unfold alerts_due, output_due. rewrite Er.
    change (alerts (goal_checked w1)) with (alerts w1 ++ goal_messages w1).
    change (outputArea_value (goal_checked w1)) with (outputArea_value w1).
    change (timers (goal_checked w1)) with (timers w1).
    rewrite Et, app_nil_r.
    assert (Hg' : on_grid (goal_checked w1)) by exact sp_grid0.
    rewrite Eb in *. rewrite (overshoot_due_nil _ Hg'), app_nil_r.
    rewrite (overshoot_due_nil _ sp_grid0), app_nil_r in Ha.
    rewrite <- (verdict_nil _ sp_grid0), Hv, Ha, <- app_assoc.
    split; [reflexivity |].
    unfold output_due in Ho. rewrite Eb in Ho. exact Ho.
Qed.

(** One timer task of a run changes neither the messages nor the output the
    run will have shown when it is over. *)
Lemma timer_task_trace i w :
  run_inv i w -> timers w <> [] ->
  alerts_due i (dispatch w TimerFires) = alerts_due i w
  /\ output_due i (dispatch w TimerFires) = output_due i w.
Proof.
  intros [Hm Hg He Hf Ht] Hne. unfold dispatch.
  destruct (timers w) as [|t [|t2 [|]]] eqn:E; try contradiction.
  - destruct Ht as [Hcb Hh]. cbn [next_timer remove_timer].
    rewrite Nat.eqb_refl, Hcb. cbn [invoke].
    set (w0 := with_now _ _).
    destruct (runner_slice_trace i w0 Hm Hg He Hh eq_refl) as [Ha Ho].
    rewrite Ha, Ho. unfold alerts_due, output_due. rewrite E.
    split; reflexivity.
  - destruct Ht as (Ha & Hr & Hid & Hh).
    cbn [next_timer]. destruct (timer_due t2 <? timer_due t) eqn:Ed.
    + cbn [remove_timer].
      rewrite Nat.eqb_refl. rewrite (proj2 (Nat.eqb_neq _ _) Hid).
      rewrite Hr. cbn [invoke]. set (w0 := with_now _ _).
      rewrite (runner_paused i w0 _ Hm Hh eq_refl). cbn [world_of].
      unfold alerts_due, output_due. rewrite E.
      replace (remaining i (rescheduled w0)) with (remaining i w)
        by (symmetry; apply remaining_heap; reflexivity).
      split; reflexivity.
    + cbn [remove_timer]. rewrite Nat.eqb_refl.
      assert (Hid' : Nat.eqb (timer_id t2) (timer_id t) = false)
        by (apply Nat.eqb_neq; congruence).
      rewrite Hid', Ha. cbn [invoke]. set (w0 := with_now _ _).
      unfold asyncDone, modify. cbn [world_of].
      change (heap w0) with (heap w). rewrite Hh. cbn [program].
      set (w1 := with_heap _ w0).
      assert (Hh1 : heap w1 !! i
                    = Some {| program := remaining i w; paused_ := false |})
        by (eapply heap_set_lookup, Hh).
      assert (Er : remaining i w1 = remaining i w)
        by (apply (remaining_lookup _ _ _ Hh1)).
      unfold alerts_due, output_due. rewrite E, Er.
      split; reflexivity.
Qed.

Lemma settle_trace i n :
  forall w w',
    run_inv i w -> settle n w = Some w' ->
    alerts w' = alerts_due i w /\ outputArea_value w' = output_due i w.
Proof.
  assert (Hq : forall w, run_inv i w -> timers w = [] ->
                 alerts w = alerts_due i w
                 /\ outputArea_value w = output_due i w).
  { intros w Hinv E. pose proof Hinv as [Hm Hg He Hf Ht]. rewrite E in Ht.
    unfold alerts_due, output_due. rewrite E, Ht, app_nil_r.
    rewrite (overshoot_due_nil _ Hg), app_nil_r. cbn [rendered].
    rewrite string_append_nil_r. split; reflexivity. }
  induction n as [|n IH]; intros w w' Hinv Hs.
  - cbn [settle] in Hs. destruct (timers w) eqn:E; [| discriminate Hs].
    injection Hs as <-. apply Hq; assumption.
  - cbn [settle] in Hs. destruct (timers w) as [|t ts] eqn:E.
    + injection Hs as <-. apply Hq; assumption.
    + assert (Hne : timers w <> []) by (rewrite E; discriminate).
      destruct (timer_task i w Hinv Hne) as (Hinv' & _).
      destruct (timer_task_trace i w Hinv Hne) as [Ha Ho].
      destruct (IH _ _ Hinv' Hs) as [Ha' Ho'].
      rewrite Ha', Ho', Ha, Ho. split; reflexivity.
Qed.

Lemma run_messages_start code w :
  current_state w = START_STATE -> inErrorState w = false ->
  overshoot_due code w ++ verdict code w = run_messages (count_moves code).
Proof.
  intros Hc Hf. pose proof (count_moves_nonneg code) as Hk.
  unfold overshoot_due, verdict, outcome_err, outcome_y, run_messages.
  rewrite Hc, Hf. cbn [x y START_STATE GOAL_STATE orb]. unfold COLS.
  rewrite Z.add_0_l.
  destruct (3 - 1 <? count_moves code) eqn:E1.
  - apply Z.ltb_lt in E1.
    replace (count_moves code <? 3 - 1) with false
      by (symmetry; apply Z.ltb_ge; lia).
    replace (count_moves code =? 3 - 1) with false
      by (symmetry; apply Z.eqb_neq; lia).
    reflexivity.
  - apply Z.ltb_ge in E1. cbn [app].
    destruct (count_moves code <? 3 - 1) eqn:E2.
    + apply Z.ltb_lt in E2.
      replace (Z.min (count_moves code) (3 - 1) =? 2) with false
        by (symmetry; apply Z.eqb_neq; lia).
      reflexivity.
    + apply Z.ltb_ge in E2.
      replace (count_moves code =? 3 - 1) with true
        by (symmetry; apply Z.eqb_eq; lia).
      replace (Z.min (count_moves code) (3 - 1) =? 2) with true
        by (symmetry; apply Z.eqb_eq; lia).
      reflexivity.
Qed.

(** A whole run, requested when no timer is pending: its messages and its
    output. *)
Lemma run_trace code w :
  timers w = [] ->
  exists fuel w',
    settle fuel (world_of (runCode code w)) = Some w'
    /\ timers w' = []
    /\ alerts w' = alerts w ++ run_messages (count_moves code)
    /\ outputArea_value w'
       = String.append (outputArea_value w) (rendered code).
Proof.
  intros Ht. rewrite runCode_eq. cbn [world_of].
  set (bw := begin_world code w).
  destruct (begin_inv code bw) as [Hinv _];
    [reflexivity | intros H; discriminate H | reflexivity |].
  destruct (settle_run _ _ _ Hinv (Nat.le_refl _))
    as (w' & Hs & Ht' & _).
  destruct (settle_trace _ _ _ _ Hinv Hs) as [Ha Ho].
  exists (S (run_measure (length (heap bw)) (world_of (beginExecution code bw)))), w'.
  split.
  - cbn [settle].
    assert (E : timers (run_requested code w) = [begin_timer code w])
      by (cbn; rewrite Ht; reflexivity).
    rewrite E, start_task by exact Ht. exact Hs.
  - split; [exact Ht' |]. rewrite Ha, Ho.
    rewrite beginExecution_eq.
    set (i := length (heap bw)). set (wA := with_myInterpreter _ _).
    assert (Hh : heap wA !! i = Some {| program := code; paused_ := false |})
      by (apply list_lookup_middle; reflexivity).
    pose proof (remaining_lookup _ _ _ Hh) as Hr. cbn [program] in Hr.
    rewrite <- Hr in Hh.
    destruct (runner_slice_trace i wA eq_refl) as [Ha' Ho'];
      [reflexivity | intros H; discriminate H | exact Hh | reflexivity |].
    rewrite Ha', Ho'. unfold output_due. rewrite Hr.
    rewrite (run_messages_start code wA eq_refl eq_refl).
    split; reflexivity.
Qed.

(** X8.  The verdict of a run depends on the number of moves alone.  A run
    requested when no timer is pending comes to an end and shows exactly one
    message: "not reached" when the program makes fewer than [COLS - 1]
    moves, "reached" when it makes exactly [COLS - 1], and the overshoot
    message (and no verdict) when it makes more; alerts and waits in the
    program do not matter. *)
Theorem run_shows_one_message (w : World) (code : list HostCall) :
  timers w = [] ->
  exists fuel w',
    settle fuel (world_of (runCode code w)) = Some w'
    /\ alerts w'
       = alerts w ++
         [if count_moves code <? COLS - 1 then msg_no_goal
          else if count_moves code =? COLS - 1 then msg_goal
               else msg_too_far].
Proof.
  intros Ht. destruct (run_trace code w Ht) as (fuel & w' & Hs & _ & Ha & _).
  exists fuel, w'. split; [exact Hs |]. rewrite Ha. unfold run_messages.
  destruct (_ <? _); [reflexivity |]. destruct (_ =? _); reflexivity.
Qed.

Lemma run_shows_one_message_witness :
  exists fuel w',
    settle fuel (world_of (runCode move_wait_move initial_world)) = Some w'
    /\ alerts w' = alerts initial_world ++ [msg_goal].
Proof.
  apply (run_shows_one_message initial_world move_wait_move). reflexivity.
Defined.

Lemma occurs_append c (a b : string) :
  occurs c (String.append a b) = occurs c a || occurs c b.
Proof.
  induction a as [|ch a IH]; cbn; [reflexivity |].
  rewrite IH, orb_assoc. reflexivity.
Qed.

Lemma kept_append (a b : string) :
  kept_by_text_area (String.append a b)
  = kept_by_text_area a && kept_by_text_area b.
Proof.
  unfold kept_by_text_area. rewrite occurs_append, negb_orb. reflexivity.
Qed.

Lemma rendered_kept code :
  alerts_kept code = true -> kept_by_text_area (rendered code) = true.
Proof.
  induction code as [|c rest IH]; intros H; [reflexivity |].
  destruct c as [|[text|]|s]; cbn [alerts_kept rendered] in *.
  - apply IH, H.
  - apply andb_prop in H as [Ht Hr].
    rewrite !kept_append, Ht, (IH Hr). reflexivity.
  - rewrite !kept_append, (IH H). reflexivity.
  - apply IH, H.
Qed.

(** X9.  The output area is only ever appended to.  Take the output area
    to be a text area holding no carriage return, and a program whose
    [alert] texts hold none, so that the area gives back every value as the
    script set it.  A run of the program requested when no timer is pending
    leaves in the area what was there before, followed by a line break and
    the text for each [alert] call, in program order, whether or not the
    run overshoots; neither the request nor the reset in it clears the
    area, and the value still holds no carriage return. *)
Theorem run_appends_output (w : World) (code : list HostCall) :
  timers w = [] ->
  kept_by_text_area (outputArea_value w) = true ->
  alerts_kept code = true ->
  exists fuel w',
    settle fuel (world_of (runCode code w)) = Some w'
    /\ outputArea_value w'
       = String.append (outputArea_value w) (rendered code)
    /\ kept_by_text_area (outputArea_value w') = true.
Proof.
  intros Ht Hw Hc.
  destruct (run_trace code w Ht) as (fuel & w' & Hs & _ & _ & Ho).
  exists fuel, w'. split; [exact Hs |]. split; [exact Ho |].
  rewrite Ho, kept_append, Hw, (rendered_kept code Hc). reflexivity.
Qed.

Lemma run_appends_output_witness :
  exists fuel w',
    settle fuel (world_of (runCode move_wait_move initial_world)) = Some w'
    /\ outputArea_value w'
       = String.append (outputArea_value initial_world)
           (rendered move_wait_move)
    /\ kept_by_text_area (outputArea_value w') = true.
Proof.
  apply (run_appends_output initial_world move_wait_move); reflexivity.
Defined.

(** ** A reset stops a run that has started *)














(** ** How long a run lasts *)

Lemma moveForward_keeps_clock w :
  now (world_of (moveForward w)) = now w
  /\ timers (world_of (moveForward w)) = timers w
  /\ heap (world_of (moveForward w)) = heap w.
Proof.
  unfold moveForward, bind, get, modify, ret, window_alert, moveImage.
  destruct (inErrorState w); [repeat split |].
  destruct (_ <? _); cbn; [destruct (cell_exists _) |]; repeat split.
Qed.

(** A slice of a program takes no time; the wait that ends it is due after
    the milliseconds it asks for. *)
Lemma Interpreter_steps_time i code :
  forall w b w',
    (i < length (heap w))%nat ->
    Interpreter_steps i code w = Normal b w' ->
    now w' = now w
    /\ if b then
         exists a,
           timers w' = timers w ++ [a] /\ now w <= timer_due a
           /\ timer_due a + waits_total (remaining i w')
              = now w + waits_total code
           /\ 1 + count_waits (remaining i w') = count_waits code
       else
         timers w' = timers w /\ waits_total code = 0
         /\ count_waits code = 0.
Proof.
  induction code as [|c rest IH]; intros w b w' Hi Hrun.
  - injection Hrun as <- <-. repeat split.
  - destruct c as [|text|s]; cbn [Interpreter_steps] in Hrun;
      unfold bind at 1 in Hrun; unfold set_interpreter at 1 in Hrun;
      cbn [modify] in Hrun.
    + unfold bind at 1 in Hrun. unfold moveForwardWrapper in Hrun.
      match type of Hrun with context [moveForward ?v] =>
        destruct (moveForward_keeps_clock v) as (Hn & Ht & Hh);
        destruct (moveForward v) as [[] w2|err w2]; [| discriminate Hrun]
      end.
      cbn [world_of] in Hn, Ht, Hh. cbn in Hn, Ht, Hh.
      apply IH in Hrun; [| rewrite Hh, length_insert; exact Hi].
      rewrite Hn, Ht in Hrun. exact Hrun.
    + unfold bind at 1 in Hrun. unfold wrapperAlert at 1 in Hrun.
      cbn [modify] in Hrun.
      apply IH in Hrun; [| cbn; rewrite length_insert; exact Hi].
      exact Hrun.
    + unfold bind, waitForSeconds, setTimeout, ret in Hrun.
      injection Hrun as <- <-. split; [reflexivity |].
      eexists. split; [reflexivity |].
      assert (Hr : forall v,
                 heap v = <[i := {| program := rest; paused_ := true |}]> (heap w) ->
                 remaining i v = rest).
      { intros v Hv. unfold remaining. rewrite Hv.
        rewrite list_lookup_insert_eq by exact Hi. reflexivity. }
      rewrite Hr by reflexivity. cbn. repeat split; lia.
Qed.

Lemma runner_slice_time i w :
  myInterpreter w = Some i -> on_grid w -> flag_at_edge w ->
  heap w !! i = Some {| program := remaining i w; paused_ := false |} ->
  timers w = [] ->
  let w' := world_of (runner w) in
  timers_ahead w'
  /\ now w + waits_total (remaining i w) <= finish_from i w'
  /\ finish_by i w'
     <= now w + waits_total (remaining i w) + 10 * count_waits (remaining i w).
Proof.
  intros Hm Hg He Hh E.
  destruct (Interpreter_steps_slice i _ w Hg He Hh) as (b & w1 & Hrun & Hpost).
  assert (Hi : (i < length (heap w))%nat) by (eapply lookup_lt_Some, Hh).
  destruct (Interpreter_steps_time i _ w b w1 Hi Hrun) as [Hn Htime].
  assert (Hr : runner w
               = Normal tt (if b then rescheduled w1 else goal_checked w1)).
  { rewrite (runner_eq i w _ Hm Hh eq_refl). cbn [program].
    unfold bind at 1. rewrite Hrun.
    destruct b; [reflexivity | apply checkGoalReached_eq]. }
  cbv zeta. rewrite Hr. cbn [world_of]. clear Hpost.
  destruct b.
  - destruct Htime as (a & Et & Ha & Hw & Hc). rewrite E in Et. cbn [app] in Et.
    assert (Er : remaining i (rescheduled w1) = remaining i w1)
      by (apply remaining_heap; reflexivity).
    unfold timers_ahead, finish_from, finish_by. rewrite Er.
    change (timers (rescheduled w1)) with (timers w1 ++ [runner_timer w1]).
    change (now (rescheduled w1)) with (now w1).
    rewrite Et. cbn [app timer_due runner_timer]. rewrite Hn.
    split; [repeat constructor; cbn; lia |]. split; lia.
  - destruct Htime as (Et & Hw & Hc). rewrite E in Et.
    unfold timers_ahead, finish_from, finish_by.
    change (timers (goal_checked w1)) with (timers w1).
    change (now (goal_checked w1)) with (now w1).
    rewrite Et, Hn. split; [constructor |]. split; lia.
Qed.

(** One timer task of a run moves neither bound the wrong way. *)
Lemma timer_task_time i w :
  run_inv i w -> timers_ahead w -> timers w <> [] ->
  let w' := dispatch w TimerFires in
  timers_ahead w'
  /\ finish_from i w <= finish_from i w'
  /\ finish_by i w' <= finish_by i w.
Proof.
  intros [Hm Hg He Hf Ht] Hah Hne. unfold dispatch.
  unfold timers_ahead in Hah. unfold finish_from at 1, finish_by at 2.
  destruct (timers w) as [|t [|t2 [|]]] eqn:E; try contradiction.
  - destruct Ht as [Hcb Hh]. cbn [next_timer remove_timer].
    rewrite Nat.eqb_refl, Hcb. cbn [invoke].
    apply Forall_cons in Hah as [Hat _].
    set (w0 := with_now _ _).
    destruct (runner_slice_time i w0 Hm Hg He Hh eq_refl) as (Ha & Hlo & Hhi).
    change (remaining i w0) with (remaining i w) in *.
    change (now w0) with (Z.max (now w) (timer_due t)) in *.
    split; [exact Ha |]. split; lia.
  - destruct Ht as (Ha & Hr & Hid & Hh).
    apply Forall_cons in Hah as [Hat Hah]. apply Forall_cons in Hah as [Hat2 _].
    cbn [next_timer]. destruct (timer_due t2 <? timer_due t) eqn:Ed.
    + apply Z.ltb_lt in Ed. cbn [remove_timer].
      rewrite Nat.eqb_refl. rewrite (proj2 (Nat.eqb_neq _ _) Hid).
      rewrite Hr. cbn [invoke]. set (w0 := with_now _ _).
      rewrite (runner_paused i w0 _ Hm Hh eq_refl). cbn [world_of].
      unfold timers_ahead, finish_from, finish_by.
      replace (remaining i (rescheduled w0)) with (remaining i w)
        by (symmetry; apply remaining_heap; reflexivity).
      cbn. split; [repeat constructor; cbn; lia |]. split; lia.
    + apply Z.ltb_ge in Ed. cbn [remove_timer]. rewrite Nat.eqb_refl.
      assert (Hid' : Nat.eqb (timer_id t2) (timer_id t) = false)
        by (apply Nat.eqb_neq; congruence).
      rewrite Hid', Ha. cbn [invoke]. set (w0 := with_now _ _).
      unfold asyncDone, modify. cbn [world_of].
      change (heap w0) with (heap w). rewrite Hh. cbn [program].
      set (w1 := with_heap _ w0).
      assert (Hh1 : heap w1 !! i
                    = Some {| program := remaining i w; paused_ := false |})
        by (eapply heap_set_lookup, Hh).
      assert (Er : remaining i w1 = remaining i w)
        by (apply (remaining_lookup _ _ _ Hh1)).
      unfold timers_ahead, finish_from, finish_by. rewrite Er.
      cbn. split; [repeat constructor; cbn; lia |]. split; lia.
Qed.

Lemma settle_time i n :
  forall w w',
    run_inv i w -> timers_ahead w -> settle n w = Some w' ->
    finish_from i w <= now w' <= finish_by i w.
Proof.
  assert (Hq : forall w, timers w = [] ->
                 finish_from i w <= now w <= finish_by i w).
  { intros w E. unfold finish_from, finish_by. rewrite E. lia. }
  induction n as [|n IH]; intros w w' Hinv Hah Hs.
  - cbn [settle] in Hs. destruct (timers w) eqn:E; [| discriminate Hs].
    injection Hs as <-. apply Hq, E.
  - cbn [settle] in Hs. destruct (timers w) as [|t ts] eqn:E.
    + injection Hs as <-. apply Hq, E.
    + assert (Hne : timers w <> []) by (rewrite E; discriminate).
      destruct (timer_task i w Hinv Hne) as (Hinv' & _).
      destruct (timer_task_time i w Hinv Hah Hne) as (Hah' & Hlo & Hhi).
      pose proof (IH _ _ Hinv' Hah' Hs). lia.
Qed.

(** For a wait in range the delay [setTimeout] is passed is the delay the
    host gives the timer. *)
Lemma delay_in_range_host s :
  delay_in_range s = true -> Z.max 0 (s * 1000) = host_delay (s * 1000).
Proof.
  unfold delay_in_range, host_delay. intros H.
  apply andb_prop in H as [Hlo Hhi].
  apply Z.leb_le in Hlo. apply Z.leb_le in Hhi.
  rewrite Z.mod_small by lia.
  replace (s * 1000 + 2147483648 - 2147483648) with (s * 1000) by lia.
  reflexivity.
Qed.

(** X11.  How long a run lasts.  Take a program whose waits are whole
    seconds with [timeInSeconds * 1000] inside the 32-bit range of a timer
    delay, and let every timer fire at the time it is due.  A run of it
    requested with no timer pending is over no earlier than one millisecond
    plus the milliseconds of its waits after the request, and no later than
    ten more milliseconds for each wait. *)
Theorem run_lasts_its_waits (w : World) (code : list HostCall) :
  timers w = [] ->
  waits_in_range code = true ->
  exists fuel w',
    settle fuel (world_of (runCode code w)) = Some w'
    /\ now w + 1 + waits_total code <= now w'
    /\ now w' <= now w + 1 + waits_total code + 10 * count_waits code.
Proof.
  intros Ht _. rewrite runCode_eq. cbn [world_of].
  set (bw := begin_world code w).
  destruct (begin_inv code bw) as [Hinv _];
    [reflexivity | intros H; discriminate H | reflexivity |].
  destruct (settle_run _ _ _ Hinv (Nat.le_refl _)) as (w' & Hs & _).
  revert Hinv Hs. rewrite beginExecution_eq.
  set (i := length (heap bw)). set (wA := with_myInterpreter _ _).
  intros Hinv Hs.
  assert (Hh : heap wA !! i = Some {| program := code; paused_ := false |})
    by (apply list_lookup_middle; reflexivity).
  pose proof (remaining_lookup _ _ _ Hh) as Hr. cbn [program] in Hr.
  rewrite <- Hr in Hh.
  destruct (runner_slice_time i wA eq_refl) as (Hah & Hlo & Hhi);
    [reflexivity | intros H; discriminate H | exact Hh | reflexivity |].
  pose proof (settle_time _ _ _ _ Hinv Hah Hs) as Hb.
  rewrite Hr in Hlo, Hhi.
  change (now wA) with (Z.max (now w) (now w + 1)) in Hlo, Hhi.
  exists (S (run_measure i (world_of (runner wA)))), w'.
  split.
  - cbn [settle].
    assert (E : timers (run_requested code w) = [begin_timer code w])
      by (cbn; rewrite Ht; reflexivity).
    rewrite E, start_task by exact Ht. rewrite beginExecution_eq. exact Hs.
  - split; lia.
Qed.

Lemma run_lasts_its_waits_witness :
  exists fuel w',
    settle fuel (world_of (runCode two_waits initial_world)) = Some w'
    /\ now initial_world + 1 + waits_total two_waits <= now w'
    /\ now w'
       <= now initial_world + 1 + waits_total two_waits
          + 10 * count_waits two_waits.
Proof.
  apply (run_lasts_its_waits initial_world two_waits); reflexivity.
Defined.

(** ** The cells of the grid *)

Example cell_name_examples :
  cell_name 0 2 = "cell0_2"%string /\ cell_name 10 (-1) = "cell10_-1"%string.
Proof. split; reflexivity. Qed.

Lemma occurs_digits d : occurs "_" (NilEmpty.string_of_uint d) = false.
Proof. induction d; cbn; assumption || reflexivity. Qed.

Lemma occurs_number n : occurs "_" (number_to_string n) = false.
Proof.
  unfold number_to_string.
  destruct (Z.to_int n) as [d|d]; cbn [NilZero.string_of_int occurs];
    unfold NilZero.string_of_uint;
    destruct d; try reflexivity;
    match goal with |- context [NilEmpty.string_of_uint ?u] =>
      rewrite (occurs_digits u) end; reflexivity.
Qed.

Lemma number_to_string_inj a b :
  number_to_string a = number_to_string b -> a = b.
Proof.
  assert (Hn : forall n, Z.to_int n <> Decimal.Pos Decimal.Nil
                         /\ Z.to_int n <> Decimal.Neg Decimal.Nil).
  { intros [|p|p]; cbn; split; try discriminate;
      intros [= H]; exact (Unsigned.to_uint_nonnil p H). }
  unfold number_to_string. intros E. apply DecimalZ.to_int_inj.
  destruct (Hn a) as [Ha1 Ha2]. destruct (Hn b) as [Hb1 Hb2].
  pose proof (NilZero.isi _ Ha1 Ha2) as Ia.
  pose proof (NilZero.isi _ Hb1 Hb2) as Ib.
  rewrite E in Ia. congruence.
Qed.

(** A string is cut at the first occurrence of a character in one way. *)
Lemma split_at c :
  forall s1 s2 t1 t2,
    occurs c s1 = false -> occurs c s2 = false ->
    String.append s1 (String c t1) = String.append s2 (String c t2) ->
    s1 = s2 /\ t1 = t2.
Proof.
  induction s1 as [|a s1 IH]; intros [|b s2] t1 t2 H1 H2 E; cbn in *.
  - injection E as ->. split; reflexivity.
  - injection E as -> _. rewrite Ascii.eqb_refl in H2. discriminate H2.
  - injection E as -> _. rewrite Ascii.eqb_refl in H1. discriminate H1.
  - injection E as -> E.
    apply orb_false_elim in H1 as [_ H1]. apply orb_false_elim in H2 as [_ H2].
    destruct (IH _ _ _ H1 H2 E) as [-> ->]. split; reflexivity.
Qed.

Lemma cell_name_inj a b c d : cell_name a b = cell_name c d -> a = c /\ b = d.
Proof.
  unfold cell_name. rewrite !string_append_assoc. cbn. intros [= E].
  apply split_at in E; [| apply occurs_number | apply occurs_number].
  destruct E as [Ea Eb].
  split; apply number_to_string_inj; assumption.
Qed.

Lemma drawGrid_cells_elem rows cols c :
  In c (drawGrid_cells rows cols)
  <-> exists i j, 0 <= i < rows /\ 0 <= j < cols /\ c = new_cell i j.
Proof.
  rewrite <- list_elem_of_In. unfold drawGrid_cells.
  rewrite list_elem_of_bind. split.
  - intros (i & Hc & Hi). apply list_elem_of_fmap in Hc as (j & -> & Hj).
    apply elem_of_seqZ in Hi. apply elem_of_seqZ in Hj.
    exists i, j. split; [lia |]. split; [lia | reflexivity].
  - intros (i & j & Hi & Hj & ->). exists i. split.
    + apply list_elem_of_fmap. exists j. split; [reflexivity |].
      apply elem_of_seqZ. lia.
    + apply elem_of_seqZ. lia.
Qed.

(** Looking a cell up by the name of a position. *)
Lemma getElementById_cells rows cols a b :
  getElementById (cell_name a b) (drawGrid_cells rows cols)
  = if (0 <=? a) && (a <? rows) && (0 <=? b) && (b <? cols)
    then Some (new_cell a b) else None.
Proof.
  unfold getElementById.
  destruct (find _ _) as [c|] eqn:E.
  - apply find_some in E as [Hin Hid].
    apply drawGrid_cells_elem in Hin as (i & j & Hi & Hj & ->).
    apply String.eqb_eq in Hid. cbn [cell_id new_cell] in Hid.
    apply cell_name_inj in Hid as [-> ->].
    replace ((0 <=? a) && (a <? rows) && (0 <=? b) && (b <? cols)) with true;
      [reflexivity |].
    symmetry. rewrite !andb_true_iff, !Z.leb_le, !Z.ltb_lt. lia.
  - destruct ((0 <=? a) && (a <? rows) && (0 <=? b) && (b <? cols)) eqn:R;
      [| reflexivity].
    rewrite !andb_true_iff, !Z.leb_le, !Z.ltb_lt in R.
    assert (Hin : In (new_cell a b) (drawGrid_cells rows cols)).
    { apply drawGrid_cells_elem. exists a, b.
      split; [lia |]. split; [lia | reflexivity]. }
    pose proof (find_none _ _ E _ Hin) as Hf. cbn in Hf.
    rewrite String.eqb_refl in Hf. discriminate Hf.
Qed.

(** X12.  The cell [moveImage] looks up.  In the grid [drawGrid] has drawn,
    [getElementById] finds the cell named after a position exactly when
    [0 <= x < ROWS] and [0 <= y < COLS], which is the test [moveImage] makes
    here, and the cell it finds is the one created for that row and
    column. *)
Theorem moveImage_finds_its_cell (p : Position) :
  getElementById (cell_name (x p) (y p)) drawGrid
  = if cell_exists p then Some (new_cell (x p) (y p)) else None.
Proof. unfold drawGrid, cell_exists. apply getElementById_cells. Qed.

(** X13.  [drawGrid] with loop bounds [rows] and [cols] creates
    [rows * cols] cells, all of class [cell], and no two of them have the
    same id. *)
Theorem drawGrid_cells_distinct (rows cols : Z) :
  length (drawGrid_cells rows cols) = (Z.to_nat rows * Z.to_nat cols)%nat
  /\ Forall (fun c => cell_className c = "cell"%string)
       (drawGrid_cells rows cols)
  /\ NoDup (map cell_id (drawGrid_cells rows cols)).
Proof.
  split; [| split].
  - unfold drawGrid_cells. rewrite <- (length_seqZ 0 rows).
    generalize (seqZ 0 rows) as l.
    induction l as [|i l IH]; cbn; [reflexivity |].
    rewrite length_app, length_fmap, length_seqZ. cbn in IH. rewrite IH.
    reflexivity.
  - apply Forall_forall. intros c Hc. apply list_elem_of_In in Hc.
    apply drawGrid_cells_elem in Hc as (i & j & _ & _ & ->). reflexivity.
  - unfold drawGrid_cells.
    change (map cell_id) with (fmap (M := list) cell_id).
    apply NoDup_fmap_2_strong.
    + intros c d Hc Hd E.
      apply list_elem_of_In, drawGrid_cells_elem in Hc as (i & j & _ & _ & ->).
      apply list_elem_of_In, drawGrid_cells_elem in Hd as (k & l & _ & _ & ->).
      cbn [cell_id new_cell] in E. apply cell_name_inj in E as [-> ->].
      reflexivity.
    + apply NoDup_bind.
      * intros i k c _ _ Hc Hd.
        apply list_elem_of_fmap in Hc as (j & -> & _).
        apply list_elem_of_fmap in Hd as (l & E & _).
        apply (f_equal cell_id) in E. cbn [cell_id new_cell] in E.
        apply cell_name_inj in E as [-> _]. reflexivity.
      * intros i _. apply NoDup_fmap_2_strong; [| apply NoDup_seqZ].
        intros j l _ _ E.
        apply (f_equal cell_id) in E. cbn [cell_id new_cell] in E.
        apply cell_name_inj in E as [_ ->]. reflexivity.
      * apply NoDup_seqZ.
Qed.

(** ** A reset before the start task *)

(** X14.  A reset that comes before the start task of a run does not stop
    the run.  Request a run when no timer is pending and click Reset before
    any timer has fired: the program still runs to its end, the image ends
    where its moves take it, its message is shown, and the Run button is
    enabled all the while. *)
Theorem request_survives_reset (w : World) (code : list HostCall) :
  reachable w -> timers w = [] ->
  exists fuel w',
    settle fuel (dispatch (world_of (runCode code w)) ClickReset) = Some w'
    /\ y (current_state w') = Z.min (count_moves code) (COLS - 1)
    /\ alerts w'
       = alerts w ++
         [if count_moves code <? COLS - 1 then msg_no_goal
          else if count_moves code =? COLS - 1 then msg_goal
               else msg_too_far]
    /\ runButton_disabled w' = false.
Proof.
  intros Hr Ht. pose proof (pid_fresh_reachable w Hr) as Hp.
  unfold pid_fresh in Hp.
  rewrite runCode_eq. cbn [world_of dispatch]. rewrite resetState_eq.
  cbn [world_of].
  set (u := reset_world (run_requested code w)).
  assert (E : timers u = [begin_timer code w]).
  { unfold u. cbn. rewrite Ht. cbn.
    replace (Nat.eqb (nextTimerId w) (runnerPid w)) with false
      by (symmetry; apply Nat.eqb_neq; lia).
    reflexivity. }
  assert (D : exists bw,
             dispatch u TimerFires = world_of (beginExecution code bw)
             /\ timers bw = [] /\ current_state bw = START_STATE
             /\ inErrorState bw = false /\ alerts bw = alerts w
             /\ runButton_disabled bw = false).
  { exists (with_now (Z.max (now u) (now w + 1)) (with_timers [] u)).
    split; [| repeat split].
    unfold dispatch. rewrite E. cbn [next_timer remove_timer begin_timer
                                       timer_id timer_due timer_cb].
    rewrite Nat.eqb_refl. reflexivity. }
  destruct D as (bw & Hd & Htb & Hc & Hf & Ha0 & Hb0).
  assert (Hg : on_grid bw) by (unfold on_grid; rewrite Hc; reflexivity).
  assert (He : flag_at_edge bw)
    by (unfold flag_at_edge; rewrite Hf; intros H; discriminate H).
  destruct (begin_inv code bw Hg He Htb) as [Hinv _].
  destruct (begin_run code bw Hg He Htb)
    as (fuel & w' & Hs & _ & Hy & _ & _ & _ & Hb & _).
  destruct (settle_trace _ _ _ _ Hinv Hs) as [Ha _].
  exists (S fuel), w'. split; [| split; [| split]].
  - cbn [settle]. rewrite E, Hd. exact Hs.
  - rewrite Hy. unfold outcome_y. rewrite Hc. reflexivity.
  - rewrite Ha. rewrite beginExecution_eq.
    set (i := length (heap bw)). set (wA := with_myInterpreter _ _).
    assert (Hh : heap wA !! i = Some {| program := code; paused_ := false |})
      by (apply list_lookup_middle; reflexivity).
    pose proof (remaining_lookup _ _ _ Hh) as Hrem. cbn [program] in Hrem.
    rewrite <- Hrem in Hh.
    destruct (runner_slice_trace i wA eq_refl Hg He Hh Htb) as [Ha' _].
    rewrite Ha', Hrem.
    rewrite (run_messages_start code wA Hc Hf).
    change (alerts wA) with (alerts bw). rewrite Ha0.
    unfold run_messages.
    destruct (_ <? _); [reflexivity |]. destruct (_ =? _); reflexivity.
  - rewrite Hb. exact Hb0.
Qed.

Lemma request_survives_reset_witness :
  exists fuel w',
    settle fuel (dispatch (world_of (runCode (moves 1) initial_world)) ClickReset)
    = Some w'
    /\ y (current_state w') = Z.min (count_moves (moves 1)) (COLS - 1)
    /\ alerts w'
       = alerts initial_world ++
         [if count_moves (moves 1) <? COLS - 1 then msg_no_goal
          else if count_moves (moves 1) =? COLS - 1 then msg_goal
               else msg_too_far]
    /\ runButton_disabled w' = false.
Proof.
  apply (request_survives_reset initial_world (moves 1)).
  - apply reachable_initial.
  - reflexivity.
Defined.
